(** * XplainIQ lite: the scoring core

    A shallow embedding of the scoring pipeline of [XplainIQLite.py] and
    [XplainIQLite_Final.py] (score computation, tier classification,
    strengths / gaps, recommendations, commentary), with the properties
    the specification states about it, and of the code around it in
    [XplainIQLite.py]: the MIME sniffing, the query prefill and the form
    loop, the leads store, and the scores as stored and rebuilt.

    Python values are modelled as follows.
    - [int] is [Z] (unbounded).
    - [float] is IEEE 754 binary64, through the executable specification
      [SpecFloat] of the standard library at precision 53 and maximal
      exponent 1024: every operation below is correctly rounded to
      nearest-even, bit for bit.
    - [Dict[str, int]] is [gmap string Z].
    - [str] is [string], the UTF-8 bytes of the text; [bytes] is
      [list Byte.byte]. [str.lower] is modelled on ASCII text only;
      where the code applies it to arbitrary text it is a parameter.
    - a dict that is changed in place, a lead of the session, is an
      object: a reference, with the fields of every object in the state.
    - an exception is the [Raise] case of [result]. *)

From Stdlib Require Import ZArith Lia Floats.SpecFloat.
From stdpp Require Import functions gmap strings list sorting.

Local Open Scope Z_scope.

(** ** The Python operations the scoring core uses *)
Module Py.

Inductive exn : Set :=
| ValueError
| OverflowError
| ZeroDivisionError.

Inductive result (A : Type) : Type :=
| Ok (a : A)
| Raise (e : exn).
Global Arguments Ok {A} a.
Global Arguments Raise {A} e.

Global Instance exn_eq_dec : EqDecision exn.
Proof. solve_decision. Defined.
Global Instance result_eq_dec `{EqDecision A} : EqDecision (result A).
Proof. solve_decision. Defined.

Global Instance result_fmap : FMap result := λ A B f r,
  match r with
  | Ok a => Ok (f a)
  | Raise e => Raise e
  end.
Global Instance result_ret : MRet result := λ A a, Ok a.
Global Instance result_bind : MBind result := λ A B k r,
  match r with
  | Ok a => k a
  | Raise e => Raise e
  end.

(** *** binary64 *)
Abbreviation float := spec_float.

Global Instance float_eq_dec : EqDecision float.
Proof. solve_decision. Defined.

Definition prec : Z := 53.
Definition emax : Z := 1024.

Definition is_nan (x : float) : bool :=
  match x with S754_nan => true | _ => false end.
Definition is_inf (x : float) : bool :=
  match x with S754_infinity _ => true | _ => false end.
Definition is_zero (x : float) : bool :=
  match x with S754_zero _ => true | _ => false end.

(** An integer as an unrounded mantissa with exponent 0. *)
Definition raw_int (a : Z) : float :=
  match a with
  | Z0 => S754_zero false
  | Zpos p => S754_finite false p 0
  | Zneg p => S754_finite true p 0
  end.

(** The float nearest to an integer; exact below 2^53. It denotes the
    literals [0.0], [5.0], [100.0] and the value an [int] operand takes
    next to a [float] one. *)
Definition float_of_Z (a : Z) : float := binary_normalize prec emax a 0 false.

(** The float a decimal literal [m]e-[k] denotes: [m / 10^k] correctly
    rounded, so [decimal 394 1] is the literal [39.4]. *)
Definition decimal (m : Z) (k : nat) : float :=
  SFdiv prec emax (raw_int m) (raw_int (10 ^ Z.of_nat k)).

Definition float_add (x y : float) : float := SFadd prec emax x y.
Definition float_mul (x y : float) : float := SFmul prec emax x y.
Definition float_lt (x y : float) : bool := SFltb x y.
Definition float_le (x y : float) : bool := SFleb x y.
Definition float_eq (x y : float) : bool := SFeqb x y.
(** [x >= y] *)
Definition float_ge (x y : float) : bool := SFleb y x.

(** [int(n)] converted for a mixed operation: [OverflowError] when the
    integer is too large for a float. *)
Definition int_to_float (n : Z) : result float :=
  let f := float_of_Z n in
  if is_inf f then Raise OverflowError else Ok f.

(** [x / y] on floats. *)
Definition float_truediv (x y : float) : result float :=
  if is_zero y then Raise ZeroDivisionError else Ok (SFdiv prec emax x y).

(** [x / n] with [x] a float and [n] an int. *)
Definition float_truediv_int (x : float) (n : Z) : result float :=
  y ← int_to_float n; float_truediv x y.

(** [a / b] on ints: the quotient correctly rounded to a float,
    [OverflowError] when it is too large for one. *)
Definition int_truediv (a b : Z) : result float :=
  if b =? 0 then Raise ZeroDivisionError
  else
    let q := SFdiv prec emax (raw_int a) (raw_int b) in
    if is_inf q then Raise OverflowError else Ok q.

(** [sum(xs)] on floats: the running total starts from the int [0]. *)
Definition float_sum (xs : list float) : float :=
  foldl float_add (float_of_Z 0) xs.

(** From version 3.12 CPython carries the rounding errors of [sum] along
    in a compensation term [c] and adds it at the end. A sum whose
    partial sums are all exact is the same float either way; the sums of
    scores of ratings on the scale are of this kind (lemma
    [float_sum_compensated_tens] below). *)
Definition float_sub (x y : float) : float := SFsub prec emax x y.
Definition float_abs (x : float) : float := SFabs x.

Definition compensated_step (acc : float * float) (x : float) : float * float :=
  let '(total, c) := acc in
  let t := float_add total x in
  let c' :=
    if float_ge (float_abs total) (float_abs x)
    then float_add c (float_add (float_sub total t) x)
    else float_add c (float_add (float_sub x t) total) in
  (t, c').

Definition float_sum_compensated (xs : list float) : float :=
  let '(total, c) := foldl compensated_step (float_of_Z 0, float_of_Z 0) xs in
  if negb (is_zero c) && negb (is_nan c) && negb (is_inf c)
  then float_add total c else total.

(** [sum(vs)] on ints. *)
Definition int_sum (vs : list Z) : Z := foldl Z.add 0 vs.

(** [round(x)] with one argument: the nearest integer, a tie going to
    the even one; [ValueError] on NaN, [OverflowError] on an infinity. *)
Definition round_half_even (m : positive) (e : Z) : Z :=
  match e with
  | Zneg p =>
      let d := 2 ^ Zpos p in
      let q := Zpos m / d in
      let r := Zpos m mod d in
      match 2 * r ?= d with
      | Lt => q
      | Gt => q + 1
      | Eq => if Z.even q then q else q + 1
      end
  | _ => Zpos m * 2 ^ e
  end.

Definition round (x : float) : result Z :=
  match x with
  | S754_nan => Raise ValueError
  | S754_infinity _ => Raise OverflowError
  | S754_zero _ => Ok 0
  | S754_finite s m e => Ok (cond_Zopp s (round_half_even m e))
  end.

(** *** sorted *)
Section Sorted.
Context {A : Type} (key : A → float).

(** [x] goes in front of the first element whose key is not below
    its own: behind every smaller key, in front of every tie. *)
Fixpoint insert_sorted (x : A) (l : list A) : list A :=
  match l with
  | [] => [x]
  | y :: l' =>
      if float_lt (key y) (key x) then y :: insert_sorted x l'
      else x :: l
  end.

(** [sorted(l, key=key)]: ascending and stable. On keys that [<]
    orders totally (no NaN) the result does not depend on the sorting
    algorithm; this one inserts from the right end. *)
Definition sorted (l : list A) : list A := foldr insert_sorted [] l.

(** [sorted(l, key=key, reverse=True)]: the list is reversed, sorted
    and reversed again, which keeps ties in their input order. *)
Definition sorted_reverse (l : list A) : list A :=
  reverse (sorted (reverse l)).
End Sorted.

(** *** slices and strings *)

(** [l[:n]] *)
Definition slice_to {A} (n : nat) (l : list A) : list A := take n l.
(** [l[-n:]] *)
Definition slice_last {A} (n : nat) (l : list A) : list A :=
  drop (length l - n) l.

Definition lower_ascii (c : Ascii.ascii) : Ascii.ascii :=
  let n := Ascii.N_of_ascii c in
  if ((65 <=? n) && (n <=? 90))%N then Ascii.ascii_of_N (n + 32) else c.

(** [s.lower()] for ASCII text [s], as the question identifiers are: the
    letters A to Z are mapped, every other byte is kept. [str.lower] also
    maps the letters beyond ASCII, which this does not; code that
    lower-cases arbitrary text takes [str.lower] as a parameter instead. *)
Fixpoint lower (s : string) : string :=
  match s with
  | EmptyString => EmptyString
  | String c s' => String (lower_ascii c) (lower s')
  end.

(** [t[0]], [t[1]], [t[2]] on a 3-tuple. *)
Definition get0 {A B C} (t : A * B * C) : A := t.1.1.
Definition get1 {A B C} (t : A * B * C) : B := t.1.2.
Definition get2 {A B C} (t : A * B * C) : C := t.2.

(** [dict(pairs)]: a later pair with the same key wins. *)
Definition dict {V} (pairs : list (string * V)) : gmap string V :=
  foldl (λ m kv, <[kv.1 := kv.2]> m) ∅ pairs.

(** [d.get(k, dflt)] *)
Definition dict_get {V} (d : gmap string V) (k : string) (dflt : V) : V :=
  default dflt (d !! k).

End Py.

(** The list of (pillar name, pillar score, per-question detail) tuples. *)
Abbreviation pillar_tuple := (string * Py.float * gmap string Z)%type.

(** ** The scoring core of [XplainIQLite.py] (lines 180-254) *)
Module XplainIQLite.

Definition PILLARS : list (string * list string) :=
  [ ("A. Channel Strategy & Alignment",    ["A1"; "A2"]);
    ("B. Partner Program Design",          ["B1"; "B2"]);
    ("C. Partner Enablement & Engagement", ["C1"; "C2"]);
    ("D. Sales & Operations Integration",  ["D1"; "D2"]);
    ("E. Growth Readiness",                ["E1"; "E2"]) ].

Definition TIER_BANDS : list (string * Z * Z) :=
  [ ("Emerging",    0,  39);
    ("Developing",  40, 59);
    ("Established", 60, 79);
    ("Optimized",   80, 100) ].

(** The loop of [tier_for]: the first band that holds [s], else the
    sentinel. *)
Fixpoint tier_of_rounded (s : Z) (bands : list (string * Z * Z)) : string :=
  match bands with
  | [] => "Unknown"
  | (name, lo, hi) :: rest =>
      if (lo <=? s) && (s <=? hi) then name else tier_of_rounded s rest
  end.

Definition tier_for (score : Py.float) : Py.result string :=
  s ← Py.round score;
  mret (tier_of_rounded s TIER_BANDS).

Definition pillar_commentary (pillar_name : string) (pscore : Py.float) : string :=
  if Py.float_ge pscore (Py.float_of_Z 80) then
    pillar_name +:+ " is strong and scalable – keep reinforcing what works."
  else if Py.float_ge pscore (Py.float_of_Z 60) then
    pillar_name +:+ " shows a solid foundation with room to standardize and scale."
  else if Py.float_ge pscore (Py.float_of_Z 40) then
    pillar_name +:+ " is emerging – formalize structure, cadence, and measurement."
  else
    pillar_name +:+ " is underdeveloped – prioritize core mechanics and minimum viable structure.".

(** [[int(answers.get(q, 0)) for q in qids]]: the ratings of a pillar's
    questions as given, [0] for a missing one. *)
Definition pillar_vals (answers : gmap string Z) (qids : list string) : list Z :=
  (λ q, Py.dict_get answers q 0) <$> qids.

(** The score of one pillar from its ratings. *)
Definition pillar_pscore (vals : list Z) : Py.result Py.float :=
  if bool_decide (vals = []) || forallb (λ v, v =? 0) vals then
    mret (Py.float_of_Z 0)
  else
    mean ← Py.int_truediv (Py.int_sum vals) (Z.of_nat (length vals));
    fifth ← Py.float_truediv mean (Py.float_of_Z 5);
    mret (Py.float_mul fifth (Py.float_of_Z 100)).

(** One turn of the loop over [PILLARS]. *)
Definition score_pillar (answers : gmap string Z)
    (pillar_scores : Py.result (list pillar_tuple)) (pillar : string * list string)
    : Py.result (list pillar_tuple) :=
  pillar_scores ← pillar_scores;
  let '(pname, qids) := pillar in
  let vals := pillar_vals answers qids in
  pscore ← pillar_pscore vals;
  mret (pillar_scores ++ [(pname, pscore, Py.dict (zip qids vals))]).

Definition compute_scores (answers : gmap string Z)
    : Py.result (list pillar_tuple * Py.float) :=
  pillar_scores ← foldl (score_pillar answers) (mret []) PILLARS;
  overall ← Py.float_truediv_int (Py.float_sum (Py.get1 <$> pillar_scores))
                                 (Z.of_nat (length pillar_scores));
  mret (pillar_scores, overall).

Definition derive_strengths_gaps (ps : list pillar_tuple) : list string * list string :=
  let sorted_p := Py.sorted_reverse Py.get1 ps in
  let strengths := Py.get0 <$> Py.slice_to 2 sorted_p in
  let gaps := Py.get0 <$> Py.slice_last 3 sorted_p in
  (strengths, gaps).

Definition playbook : gmap string string :=
  Py.dict
    [ ("A. Channel Strategy & Alignment",
       "Clarify the partner role by segment and set a 12-month channel thesis with 3 measurable outcomes.");
      ("B. Partner Program Design",
       "Publish a simple one-pager: tiers, incentives, rules of engagement, and co-marketing paths.");
      ("C. Partner Enablement & Engagement",
       "Stand up a 30-60-90 enablement cadence: onboarding kit, monthly enablement call, quarterly MDF campaign.");
      ("D. Sales & Operations Integration",
       "Separate channel pipeline tracking; define lead routing/quoting SLAs; add 'channel' to forecast reviews.");
      ("E. Growth Readiness",
       "Baseline partner P&L and capacity; set tooling minimums (PRM/CRM views) and resource triggers for 2–3× growth.") ].

Section recommend.
(** [str.lower], on any text: its case mapping is not modelled. *)
Variable lower : string → string.

(** The string of [recommend_actions] for one pillar. *)
Definition action_for (p : pillar_tuple) : string :=
  Py.dict_get playbook (Py.get0 p)
    ("Prioritize foundational improvements in " +:+ lower (Py.get0 p)
     +:+ " to enable scale.").

Definition recommend_actions (ps : list pillar_tuple) : list string :=
  let lows := Py.slice_to 3 (Py.sorted Py.get1 ps) in
  action_for <$> lows.
End recommend.

End XplainIQLite.

(** ** The scoring core of [XplainIQLite_Final.py] (lines 168-242) *)
Module XplainIQLite_Final.

Definition PILLARS : list (string * list string) :=
  [ ("A. Channel Strategy & Alignment",    ["A1"; "A2"]);
    ("B. Partner Program Design",          ["B1"; "B2"]);
    ("C. Partner Enablement & Engagement", ["C1"; "C2"]);
    ("D. Sales & Operations Integration",  ["D1"; "D2"]);
    ("E. Growth Readiness",                ["E1"; "E2"]) ].

Definition TIER_BANDS : list (string * Z * Z) :=
  [ ("Emerging",    0,  39);
    ("Developing",  40, 59);
    ("Established", 60, 79);
    ("Optimized",   80, 100) ].

(** The loop of [tier_for]: the first band that holds [s], else the
    sentinel. *)
Fixpoint tier_of_rounded (s : Z) (bands : list (string * Z * Z)) : string :=
  match bands with
  | [] => "Unknown"
  | (name, lo, hi) :: rest =>
      if (lo <=? s) && (s <=? hi) then name else tier_of_rounded s rest
  end.

Definition tier_for (score : Py.float) : Py.result string :=
  s ← Py.round score;
  mret (tier_of_rounded s TIER_BANDS).

Definition pillar_commentary (pillar_name : string) (pscore : Py.float) : string :=
  if Py.float_ge pscore (Py.float_of_Z 80) then
    pillar_name +:+ " is strong and scalable – keep reinforcing what works."
  else if Py.float_ge pscore (Py.float_of_Z 60) then
    pillar_name +:+ " shows a solid foundation with room to standardize and scale."
  else if Py.float_ge pscore (Py.float_of_Z 40) then
    pillar_name +:+ " is emerging – formalize structure, cadence, and measurement."
  else
    pillar_name +:+ " is underdeveloped – prioritize core mechanics and minimum viable structure.".

(** [[int(answers.get(q, 0)) for q in qids]]: the ratings of a pillar's
    questions as given, [0] for a missing one. *)
Definition pillar_vals (answers : gmap string Z) (qids : list string) : list Z :=
  (λ q, Py.dict_get answers q 0) <$> qids.

(** The score of one pillar from its ratings. *)
Definition pillar_pscore (vals : list Z) : Py.result Py.float :=
  if bool_decide (vals = []) || forallb (λ v, v =? 0) vals then
    mret (Py.float_of_Z 0)
  else
    mean ← Py.int_truediv (Py.int_sum vals) (Z.of_nat (length vals));
    fifth ← Py.float_truediv mean (Py.float_of_Z 5);
    mret (Py.float_mul fifth (Py.float_of_Z 100)).

(** One turn of the loop over [PILLARS]. *)
Definition score_pillar (answers : gmap string Z)
    (pillar_scores : Py.result (list pillar_tuple)) (pillar : string * list string)
    : Py.result (list pillar_tuple) :=
  pillar_scores ← pillar_scores;
  let '(pname, qids) := pillar in
  let vals := pillar_vals answers qids in
  pscore ← pillar_pscore vals;
  mret (pillar_scores ++ [(pname, pscore, Py.dict (zip qids vals))]).

Definition compute_scores (answers : gmap string Z)
    : Py.result (list pillar_tuple * Py.float) :=
  pillar_scores ← foldl (score_pillar answers) (mret []) PILLARS;
  overall ← Py.float_truediv_int (Py.float_sum (Py.get1 <$> pillar_scores))
                                 (Z.of_nat (length pillar_scores));
  mret (pillar_scores, overall).

Definition derive_strengths_gaps (ps : list pillar_tuple) : list string * list string :=
  let sorted_p := Py.sorted_reverse Py.get1 ps in
  let strengths := Py.get0 <$> Py.slice_to 2 sorted_p in
  let gaps := Py.get0 <$> Py.slice_last 3 sorted_p in
  (strengths, gaps).

Definition playbook : gmap string string :=
  Py.dict
    [ ("A. Channel Strategy & Alignment",
       "Clarify the partner role by segment and set a 12-month channel thesis with 3 measurable outcomes.");
      ("B. Partner Program Design",
       "Publish a simple one-pager: tiers, incentives, rules of engagement, and co-marketing paths.");
      ("C. Partner Enablement & Engagement",
       "Stand up a 30-60-90 enablement cadence: onboarding kit, monthly enablement call, quarterly MDF campaign.");
      ("D. Sales & Operations Integration",
       "Separate channel pipeline tracking; define lead routing/quoting SLAs; add 'channel' to forecast reviews.");
      ("E. Growth Readiness",
       "Baseline partner P&L and capacity; set tooling minimums (PRM/CRM views) and resource triggers for 2–3× growth.") ].

Section recommend.
(** [str.lower], on any text: its case mapping is not modelled. *)
Variable lower : string → string.

(** The string of [recommend_actions] for one pillar. *)
Definition action_for (p : pillar_tuple) : string :=
  Py.dict_get playbook (Py.get0 p)
    ("Prioritize foundational improvements in " +:+ lower (Py.get0 p)
     +:+ " to enable scale.").

Definition recommend_actions (ps : list pillar_tuple) : list string :=
  let lows := Py.slice_to 3 (Py.sorted Py.get1 ps) in
  action_for <$> lows.
End recommend.

End XplainIQLite_Final.

(** ** More Python operations: bytes and subscripts *)
Module PyBytes.

Global Instance byte_eq_dec : EqDecision Byte.byte := Byte.byte_eq_dec.

(** [b.startswith(prefix)] *)
Fixpoint startswith (prefix b : list Byte.byte) : bool :=
  match prefix, b with
  | [], _ => true
  | p :: prefix', c :: b' => Byte.eqb p c && startswith prefix' b'
  | _ :: _, [] => false
  end.

(** [needle in b] *)
Fixpoint contains (needle b : list Byte.byte) : bool :=
  startswith needle b ||
  match b with
  | [] => false
  | _ :: b' => contains needle b'
  end.

(** The ASCII whitespace [bytes.lstrip()] removes: space, tab, newline,
    carriage return, vertical tab, form feed. *)
Definition is_space (c : Byte.byte) : bool :=
  bool_decide (c ∈ [Byte.x20; Byte.x09; Byte.x0a; Byte.x0d; Byte.x0b; Byte.x0c]).

(** [b.lstrip()] *)
Fixpoint lstrip (b : list Byte.byte) : list Byte.byte :=
  match b with
  | c :: b' => if is_space c then lstrip b' else b
  | [] => []
  end.

(** [l[i:j]] for [0 <= i <= j]. *)
Definition slice {A} (i j : nat) (l : list A) : list A := take (j - i) (drop i l).

(** [l[i]]: a negative index counts from the end; [None] is IndexError. *)
Definition item {A} (l : list A) (i : Z) : option A :=
  let n := Z.of_nat (length l) in
  if (0 <=? i) && (i <? n) then l !! Z.to_nat i
  else if (- n <=? i) && (i <? 0) then l !! Z.to_nat (n + i)
  else None.

End PyBytes.

(** ** The rest of [XplainIQLite.py]: MIME sniffing (lines 78-99), the
    leads store (1069-1106), the query prefill (1120-1134), the form
    loop (1195-1198), the stored scores (1228-1230) and their
    reconstruction (1321-1326) *)
Module XplainIQLite_App.
Import XplainIQLite.

Definition PNG_SIG : list Byte.byte :=
  [Byte.x89; Byte.x50; Byte.x4e; Byte.x47; Byte.x0d; Byte.x0a; Byte.x1a; Byte.x0a].
Definition JPEG_SIG : list Byte.byte := [Byte.xff; Byte.xd8; Byte.xff].
Definition RIFF : list Byte.byte := [Byte.x52; Byte.x49; Byte.x46; Byte.x46].
Definition WEBP : list Byte.byte := [Byte.x57; Byte.x45; Byte.x42; Byte.x50].
Definition GIF87a : list Byte.byte :=
  [Byte.x47; Byte.x49; Byte.x46; Byte.x38; Byte.x37; Byte.x61].
Definition GIF89a : list Byte.byte :=
  [Byte.x47; Byte.x49; Byte.x46; Byte.x38; Byte.x39; Byte.x61].
Definition BM : list Byte.byte := [Byte.x42; Byte.x4d].
Definition ICO_SIG : list Byte.byte := [Byte.x00; Byte.x00; Byte.x01; Byte.x00].
Definition TIFF_II : list Byte.byte := [Byte.x49; Byte.x49; Byte.x2a; Byte.x00].
Definition TIFF_MM : list Byte.byte := [Byte.x4d; Byte.x4d; Byte.x00; Byte.x2a].
(** [b"<svg"] *)
Definition SVG_TAG : list Byte.byte := [Byte.x3c; Byte.x73; Byte.x76; Byte.x67].

Definition _detect_mime_from_bytes (b : list Byte.byte) : option string :=
  if bool_decide (b = []) || (length b <? 12)%nat then None
  else
    let head16 := take 16 b in
    let head32 := take 32 b in
    if PyBytes.startswith PNG_SIG head16 then Some "image/png"
    else if PyBytes.startswith JPEG_SIG head16 then Some "image/jpeg"
    else if bool_decide (take 4 head16 = RIFF)
            && PyBytes.contains WEBP (PyBytes.slice 8 12 head16) then Some "image/webp"
    else if PyBytes.startswith GIF87a head16 || PyBytes.startswith GIF89a head16
      then Some "image/gif"
    else if PyBytes.startswith BM head16 then Some "image/bmp"
    else if bool_decide (take 4 head16 = ICO_SIG) then Some "image/x-icon"
    else if PyBytes.startswith TIFF_II head16 || PyBytes.startswith TIFF_MM head16
      then Some "image/tiff"
    else if PyBytes.startswith SVG_TAG (PyBytes.lstrip head32)
            || PyBytes.contains SVG_TAG (take 200 b) then Some "image/svg+xml"
    else None.

Definition QUESTIONS : list (string * string) :=
  [ ("A1", "Do you have a clearly defined purpose for selling through partners (beyond revenue expansion)?");
    ("A2", "Are your targeted partner types (TA, VAR, MSP, SI, etc.) well-defined and prioritized?");
    ("B1", "Do you have a partner program with tiering, incentives, rules of engagement, or performance criteria?");
    ("B2", "Can you clearly articulate what makes your offer unique and profitable for partners?");
    ("C1", "Do you provide training, sales playbooks, or co-branded marketing assets?");
    ("C2", "How consistently do you communicate and collaborate with active partners?");
    ("D1", "Are internal sales/ops aligned to support channel transactions (quoting, order flow, support)?");
    ("D2", "Do you track partner pipeline separately with forecast accuracy goals?");
    ("E1", "Does senior leadership actively sponsor the channel model?");
    ("E2", "Are tools, systems, and staffing sufficient to support 2–3× partner growth?") ].

(** [get_query_param], on the dictionary [_get_query_params()] returns;
    [None] is the IndexError of [vals[0]]. *)
Definition get_query_param (qp : gmap string (list string)) (key default : string)
    : option string :=
  let vals := Py.dict_get qp key [default] in
  let vals := if bool_decide (vals = []) then [default] else vals in
  PyBytes.item vals 0.

Section Prefill.
(** [int(s)] on a string, [None] when it raises. *)
Variable int_of_str : string → option Z.

(** One turn of the loop of [prefill_answers_from_query]; every
    exception of the body is swallowed. *)
Definition prefill_step (qp : gmap string (list string)) (out : gmap string Z)
    (qid : string) : gmap string Z :=
  match get_query_param qp (Py.lower qid) "" ≫= int_of_str with
  | Some val => if (1 <=? val) && (val <=? 5) then <[qid := val]> out else out
  | None => out
  end.

Definition prefill_answers_from_query (qp : gmap string (list string))
    : gmap string Z :=
  foldl (prefill_step qp) ∅ (fst <$> QUESTIONS).

(** The form loop: every question gets the rating its slider returns;
    the slider is shown with the prefilled rating, else 3. *)
Variable slider : string → Z → Z.

Definition form_step (answers : gmap string Z) (question : string * string)
    : gmap string Z :=
  let '(qid, text) := question in
  let default_val := Py.dict_get answers qid 3 in
  <[qid := slider qid default_val]> answers.

Definition form_answers (prefilled_qs : gmap string Z) : gmap string Z :=
  foldl form_step prefilled_qs QUESTIONS.
End Prefill.

(** A cell of a lead. *)
Inductive value : Type :=
| VStr (s : string)
| VInt (n : Z)
| VFloat (x : Py.float).

(** A lead is a dict object, named here by a reference. [persist_lead]
    stores the object it is given, not a copy, and [update_lead_status]
    changes the object in place: an object that stands at several places
    of the list changes at all of them. *)
Abbreviation ref := positive.

(** The session state: the fields of every dict object, and
    ['leads_db'], absent or the list of the leads. *)
Record session : Type := Session {
  lead_fields : ref → gmap string value;
  leads_db : option (list ref)
}.

(** [persist_lead]: the lead is appended, then the CSV backup is tried;
    [csv] is what that attempt gives, the resolved path or the text of
    its exception. *)
Definition persist_lead (csv : string + string) (row : ref) (st : session)
    : session * (bool * string) :=
  let db := default [] (leads_db st) in
  let db := db ++ [row] in
  (Session (lead_fields st) (Some db),
   match csv with
   | inl path => (true, "Saved to session + CSV backup at " +:+ path)
   | inr e => (true, "Saved to session (CSV backup failed: " +:+ e +:+ ")")
   end).

(** [update_lead_status]; [None] is the IndexError of
    [leads_db[index]]. The CSV backup that follows is tried and its
    failure ignored. *)
Definition update_lead_status (index : Z) (new_status : string) (st : session)
    : option session :=
  match leads_db st with
  | Some db =>
      if index <? Z.of_nat (length db) then
        row ← PyBytes.item db index;
        Some (Session (alter (<["status" := VStr new_status]>) row (lead_fields st))
                      (Some db))
      else Some st
  | None => Some st
  end.

(** ["pillar_scores"] of a submission before [str]:
    [{p[0]: round(p[1]) for p in pillar_scores}]. *)
Definition stored_pillar_scores (pillar_scores : list pillar_tuple)
    : Py.result (gmap string Z) :=
  foldl (λ acc p, d ← acc; s ← Py.round (Py.get1 p); mret (<[Py.get0 p := s]> d))
        (mret ∅) pillar_scores.

(** The loop of the admin panel that rebuilds the tuples from the two
    stored dictionaries, once parsed back. *)
Definition reconstructed_pillar_scores
    (stored_pillar_scores_dict stored_answers : gmap string Z)
    : list (string * Z * gmap string Z) :=
  foldl (λ acc pillar,
           let '(pname, qids) := pillar in
           let pscore := Py.dict_get stored_pillar_scores_dict pname 0 in
           let detail := Py.dict ((λ q, (q, Py.dict_get stored_answers q 0)) <$> qids) in
           acc ++ [(pname, pscore, detail)])
        [] PILLARS.

End XplainIQLite_App.

(** ** Notions the properties are stated with

    The properties below are those of [XplainIQLite.py]; the last one
    relates it to [XplainIQLite_Final.py]. *)
Import XplainIQLite.
Import XplainIQLite_App.

(** Every rating present lies in [lo, hi]. *)
Definition rated_within (lo hi : Z) (answers : gmap string Z) : Prop :=
  map_Forall (λ _ v, lo ≤ v ≤ hi) answers.

(** [0 <= x <= 100] *)
Definition in_0_100 (x : Py.float) : Prop :=
  Py.float_le (Py.float_of_Z 0) x = true ∧ Py.float_le x (Py.float_of_Z 100) = true.

(** [+0.0] *)
Definition float_zero : Py.float := S754_zero false.

(** The tuple of a pillar whose ratings are on the scale: ten times their
    sum as the score. *)
Definition rated_tuple (answers : gmap string Z) (pillar : string * list string)
    : pillar_tuple :=
  let vals := pillar_vals answers pillar.2 in
  (pillar.1, Py.float_of_Z (10 * Py.int_sum vals), Py.dict (zip pillar.2 vals)).

(** What one pillar contributes when the loop goes through. *)
Definition scored (answers : gmap string Z) (pillar : string * list string)
    (t : pillar_tuple) : Prop :=
  ∃ s, pillar_pscore (pillar_vals answers pillar.2) = Py.Ok s ∧
       t = (pillar.1, s, Py.dict (zip pillar.2 (pillar_vals answers pillar.2))).

(** The sum of the ten ratings. *)
Definition rating_total (answers : gmap string Z) : Z :=
  Py.int_sum (mjoin ((λ p, pillar_vals answers p.2) <$> PILLARS)).

(** [n] is an integer nearest to the finite float [x]: [|x - n| <= 1/2],
    both sides scaled by the denominator [2^-e] of [x]. *)
Definition nearest_integer (x : Py.float) (n : Z) : Prop :=
  match x with
  | S754_zero _ => n = 0
  | S754_finite s m e =>
      if e <? 0 then 2 * Z.abs (cond_Zopp s (Zpos m) - n * 2 ^ (- e)) ≤ 2 ^ (- e)
      else n = cond_Zopp s (Zpos m) * 2 ^ e
  | _ => False
  end.

(** Neither NaN nor an infinity. *)
Definition is_finite (x : Py.float) : bool :=
  negb (Py.is_nan x) && negb (Py.is_inf x).

Definition tier_names : list string :=
  ["Emerging"; "Developing"; "Established"; "Optimized"].

(** No band of the table holds [s]. *)
Definition in_no_band (s : Z) : Prop :=
  ∀ name lo hi, (name, lo, hi) ∈ TIER_BANDS → ¬ (lo ≤ s ≤ hi).

(** The order of the floats away from NaN, as a lexicographic order on
    integer triples: the class (infinities, signs, zero), then the
    exponent, then the mantissa. *)
Definition rank (x : Py.float) : Z * Z * Z :=
  match x with
  | S754_nan => (0, 0, 0)
  | S754_infinity true => (-2, 0, 0)
  | S754_infinity false => (2, 0, 0)
  | S754_zero _ => (0, 0, 0)
  | S754_finite false m e => (1, e, Zpos m)
  | S754_finite true m e => (-1, - e, Zneg m)
  end.

Definition lex_lt (a b : Z * Z * Z) : Prop :=
  a.1.1 < b.1.1 ∨
  (a.1.1 = b.1.1 ∧ (a.1.2 < b.1.2 ∨ (a.1.2 = b.1.2 ∧ a.2 < b.2))).

(** Sortedness and stability of a list under a float key. *)
Definition key_ok {A} (key : A → Py.float) (a : A) : Prop :=
  Py.is_nan (key a) = false.
Definition key_le {A} (key : A → Py.float) (a b : A) : Prop :=
  Py.float_le (key a) (key b) = true.
Definition tie {A} (key : A → Py.float) (k : Py.float) (a : A) : Prop :=
  Py.float_eq (key a) k = true.
Global Instance tie_dec {A} (key : A → Py.float) k a : Decision (tie key k a) :=
  decide (Py.float_eq (key a) k = true).

(** No score is NaN. *)
Definition no_nan (ps : list pillar_tuple) : Prop := Forall (key_ok Py.get1) ps.
(** Every tuple scores no more than the ones behind it. *)
Definition ascending (l : list pillar_tuple) : Prop :=
  StronglySorted (key_le Py.get1) l.
(** Every tuple scores no less than the ones behind it. *)
Definition descending (l : list pillar_tuple) : Prop :=
  StronglySorted (flip (key_le Py.get1)) l.
(** The tuples of one score stand in [l] in the order they have in [ps]. *)
Definition ties_in_input_order (ps l : list pillar_tuple) : Prop :=
  ∀ k, filter (tie Py.get1 k) l = filter (tie Py.get1 k) ps.

(** The string [recommend_actions] generates for a name the playbook
    lacks, [lower] being [str.lower]. *)
Definition generic_action (lower : string → string) (pname : string) : string :=
  "Prioritize foundational improvements in " +:+ lower pname +:+ " to enable scale.".

(** The four sentences of [pillar_commentary], without the pillar name
    in front. *)
Definition commentary_strong : string :=
  " is strong and scalable – keep reinforcing what works.".
Definition commentary_solid : string :=
  " shows a solid foundation with room to standardize and scale.".
Definition commentary_emerging : string :=
  " is emerging – formalize structure, cadence, and measurement.".
Definition commentary_underdeveloped : string :=
  " is underdeveloped – prioritize core mechanics and minimum viable structure.".


(** The scores of a result of [compute_scores]: per pillar and overall. *)
Definition scores_view (r : list pillar_tuple * Py.float)
    : list (string * Py.float) * Py.float :=
  ((λ p, (Py.get0 p, Py.get1 p)) <$> r.1, r.2).

(** The answer set of the worked example. *)
Definition example_answers : gmap string Z :=
  Py.dict [("A1", 5); ("A2", 5); ("B1", 3); ("B2", 3); ("C1", 1); ("C2", 1);
           ("D1", 4); ("D2", 2); ("E1", 5); ("E2", 5)].


(** Five tuples with the scores of the worked example. *)
Definition example_tuples : list pillar_tuple :=
  [ ("A. Channel Strategy & Alignment",    Py.float_of_Z 100, ∅);
    ("B. Partner Program Design",          Py.float_of_Z 60,  ∅);
    ("C. Partner Enablement & Engagement", Py.float_of_Z 20,  ∅);
    ("D. Sales & Operations Integration",  Py.float_of_Z 60,  ∅);
    ("E. Growth Readiness",                Py.float_of_Z 100, ∅) ].

(** ** Notions for the properties of the whole pipeline *)

(** The ten question identifiers of the catalog of pillars. *)
Definition catalog_qids : list string := mjoin (snd <$> PILLARS).

(** The tier of an overall score of twice [total]. *)
Definition tier_of_total (total : Z) : string :=
  if total <=? 19 then "Emerging"
  else if total <=? 29 then "Developing"
  else if total <=? 39 then "Established"
  else "Optimized".

(** The sentence of [pillar_commentary] that goes with a tier. *)
Definition commentary_of_tier (tier : string) : string :=
  if decide (tier = "Optimized") then commentary_strong
  else if decide (tier = "Established") then commentary_solid
  else if decide (tier = "Developing") then commentary_emerging
  else commentary_underdeveloped.

(** [a2] rates every question at least as high as [a1]. *)
Definition rated_no_lower (a1 a2 : gmap string Z) : Prop :=
  ∀ q, Py.dict_get a1 q 0 ≤ Py.dict_get a2 q 0.

(** No two tuples have equal scores. *)
Fixpoint distinct_scores (ps : list pillar_tuple) : bool :=
  match ps with
  | [] => true
  | p :: ps' =>
      forallb (λ q, negb (Py.float_eq (Py.get1 p) (Py.get1 q))) ps'
      && distinct_scores ps'
  end.

(** Five tuples of one score. *)
Definition tied_tuples : list pillar_tuple :=
  (λ pillar, (pillar.1, Py.float_of_Z 60, ∅)) <$> PILLARS.

(** Five tuples of five scores. *)
Definition ranked_tuples : list pillar_tuple :=
  [ ("A. Channel Strategy & Alignment",    Py.float_of_Z 100, ∅);
    ("B. Partner Program Design",          Py.float_of_Z 60,  ∅);
    ("C. Partner Enablement & Engagement", Py.float_of_Z 20,  ∅);
    ("D. Sales & Operations Integration",  Py.float_of_Z 40,  ∅);
    ("E. Growth Readiness",                Py.float_of_Z 80,  ∅) ].

(** ** Notions for the MIME sniffing *)

(** [needle] occurs in [b]. *)
Definition occurs_in (needle b : list Byte.byte) : Prop :=
  ∃ l1 l2, b = l1 ++ needle ++ l2.

(** [b] carries the signature of one of the seven binary image types. *)
Definition has_signature (mime : string) (b : list Byte.byte) : Prop :=
  if decide (mime = "image/png") then PNG_SIG `prefix_of` b
  else if decide (mime = "image/jpeg") then JPEG_SIG `prefix_of` b
  else if decide (mime = "image/webp") then
    ∃ size rest, length size = 4%nat ∧ b = RIFF ++ size ++ WEBP ++ rest
  else if decide (mime = "image/gif") then
    GIF87a `prefix_of` b ∨ GIF89a `prefix_of` b
  else if decide (mime = "image/bmp") then BM `prefix_of` b
  else if decide (mime = "image/x-icon") then ICO_SIG `prefix_of` b
  else if decide (mime = "image/tiff") then
    TIFF_II `prefix_of` b ∨ TIFF_MM `prefix_of` b
  else False.

Definition binary_mimes : list string :=
  ["image/png"; "image/jpeg"; "image/webp"; "image/gif"; "image/bmp";
   "image/x-icon"; "image/tiff"].

(** Twelve bytes that start as a PNG file does. *)
Definition png_bytes : list Byte.byte :=
  PNG_SIG ++ [Byte.x00; Byte.x00; Byte.x00; Byte.x0d].

(** An SVG document behind a byte order mark. *)
Definition svg_bytes : list Byte.byte :=
  [Byte.xef; Byte.xbb; Byte.xbf] ++ SVG_TAG
  ++ [Byte.x20; Byte.x78; Byte.x6d; Byte.x6c; Byte.x6e; Byte.x73; Byte.x3d; Byte.x3e].

(** ** Notions for the query prefill and the form *)

(** What the query gives for one question: the parsed rating when it
    parses and lies in [1, 5]. *)
Definition query_rating (int_of_str : string → option Z)
    (qp : gmap string (list string)) (qid : string) : option Z :=
  val ← get_query_param qp (Py.lower qid) "" ≫= int_of_str;
  if (1 <=? val) && (val <=? 5) then Some val else None.

(** A parser of one decimal digit, for examples. *)
Definition int_of_digit (s : string) : option Z :=
  match s with
  | String c EmptyString =>
      let n := Z.of_N (Ascii.N_of_ascii c) in
      if (48 <=? n) && (n <=? 57) then Some (n - 48) else None
  | _ => None
  end.

Definition example_query : gmap string (list string) :=
  {[ "a1" := ["4"]; "b2" := ["9"]; "c1" := ["x"]; "zz" := ["5"] ]}.

(** ** Notions for the leads store *)

(** The list of the leads of a session, as objects. *)
Definition lead_refs (st : session) : list ref := default [] (leads_db st).

(** The leads of a session as they read: the fields of each object of
    the list. *)
Definition leads_of (st : session) : list (gmap string value) :=
  lead_fields st <$> lead_refs st.

(** What the object [r] reads once the status of the object [row] is
    set, the fields being those of [st] before. *)
Definition with_status (new_status : string) (st : session) (row r : ref)
    : gmap string value :=
  if decide (r = row) then <["status" := VStr new_status]> (lead_fields st r)
  else lead_fields st r.

(** A call on the leads store. *)
Inductive store_call : Type :=
| Persist (csv : string + string) (row : ref)
| UpdateStatus (index : Z) (new_status : string).

(** The session state after one call; [None] when the call raises. *)
Definition store_step (st : session) (c : store_call) : option session :=
  match c with
  | Persist csv row => Some (persist_lead csv row st).1
  | UpdateStatus index new_status => update_lead_status index new_status st
  end.

(** The session state after a sequence of calls; [None] when one of
    them raises. *)
Fixpoint store_run (st : session) (cs : list store_call) : option session :=
  match cs with
  | [] => Some st
  | c :: cs => st' ← store_step st c; store_run st' cs
  end.

(** The leads the calls persist, in the order of the calls. *)
Definition persisted (cs : list store_call) : list ref :=
  omap (λ c, match c with Persist _ row => Some row | UpdateStatus _ _ => None end) cs.

(** Two leads that agree on every field but the status. *)
Definition same_but_status (row row' : gmap string value) : Prop :=
  ∀ k, k ≠ "status" → row' !! k = row !! k.

(** Two leads for examples, the objects 1 and 2 of a session without a
    list. *)
Definition lead_acme : gmap string value :=
  {[ "company" := VStr "Acme"; "score_overall" := VInt 68;
     "status" := VStr "Pending Review" ]}.
Definition lead_bolt : gmap string value :=
  {[ "company" := VStr "Bolt"; "score_overall" := VInt 40;
     "status" := VStr "Pending Review" ]}.
Definition example_fields (r : ref) : gmap string value :=
  if decide (r = 1%positive) then lead_acme
  else if decide (r = 2%positive) then lead_bolt
  else ∅.
Definition example_session : session := Session example_fields None.
(** The object 1 persisted twice, around the object 2. *)
Definition shared_session : session :=
  Session example_fields (Some [1; 2; 1]%positive).

(** ** Notions for the stored scores *)

(** One turn of the comprehension of [stored_pillar_scores]. *)
Definition stored_step (acc : Py.result (gmap string Z)) (p : pillar_tuple)
    : Py.result (gmap string Z) :=
  d ← acc; s ← Py.round (Py.get1 p); mret (<[Py.get0 p := s]> d).

(** A rebuilt tuple [r] shows the name and the detail of the tuple [p],
    and its score rounded. *)
Definition rebuilt_from (p : pillar_tuple) (r : string * Z * gmap string Z) : Prop :=
  Py.get0 r = Py.get0 p ∧ Py.round (Py.get1 p) = Py.Ok (Py.get1 r) ∧
  Py.get2 r = Py.get2 p.

(** A rebuilt tuple with its score as a float. *)
Definition as_pillar_tuple (r : string * Z * gmap string Z) : pillar_tuple :=
  (Py.get0 r, Py.float_of_Z (Py.get1 r), Py.get2 r).

(** ** The order of the floats *)

Lemma SFcompare_rank x y :
  Py.is_nan x = false → Py.is_nan y = false →
  ∃ c, SFcompare x y = Some c ∧
       (c = Lt ↔ lex_lt (rank x) (rank y)) ∧
       (c = Eq ↔ rank x = rank y) ∧
       (c = Gt ↔ lex_lt (rank y) (rank x)).
Proof.
  intros Hx Hy.
  destruct x as [sx|sx| |sx mx ex], y as [sy|sy| |sy my ey]; try discriminate;
    try destruct sx; try destruct sy; unfold lex_lt;
    cbn -[Pos.compare_cont Z.compare];
    try (eexists; split; [reflexivity|]; repeat split; intros;
         try discriminate; try lia; congruence).
  all: change (Pos.compare_cont Eq mx my) with (Pos.compare mx my).
  all: destruct (Z.compare_spec ex ey); destruct (Pos.compare_spec mx my);
    cbn -[Z.lt];
    (eexists; split; [reflexivity|]; repeat split; intros;
     try discriminate; try lia; try congruence; simplify_eq; lia).
Qed.


Lemma float_eq_not_nan x y :
  Py.float_eq x y = true → Py.is_nan x = false ∧ Py.is_nan y = false.
Proof. by destruct x, y. Qed.

Lemma float_le_not_nan x y :
  Py.float_le x y = true → Py.is_nan x = false ∧ Py.is_nan y = false.
Proof. by destruct x, y. Qed.

Lemma float_lt_rank x y :
  Py.is_nan x = false → Py.is_nan y = false →
  Py.float_lt x y = true ↔ lex_lt (rank x) (rank y).
Proof.
  intros Hx Hy. destruct (SFcompare_rank x y Hx Hy) as (c & Hc & HLt & _).
  unfold Py.float_lt, SFltb. rewrite Hc, <- HLt. by destruct c.
Qed.

Lemma float_eq_rank x y :
  Py.is_nan x = false → Py.is_nan y = false →
  Py.float_eq x y = true ↔ rank x = rank y.
Proof.
  intros Hx Hy. destruct (SFcompare_rank x y Hx Hy) as (c & Hc & _ & HEq & _).
  unfold Py.float_eq, SFeqb. rewrite Hc, <- HEq. by destruct c.
Qed.

Lemma float_le_rank x y :
  Py.is_nan x = false → Py.is_nan y = false →
  Py.float_le x y = true ↔ lex_lt (rank x) (rank y) ∨ rank x = rank y.
Proof.
  intros Hx Hy. destruct (SFcompare_rank x y Hx Hy) as (c & Hc & HLt & HEq & _).
  unfold Py.float_le, SFleb. rewrite Hc, <- HLt, <- HEq.
  clear. destruct c; intuition congruence.
Qed.

Ltac rank_order :=
  repeat match goal with
  | r : (Z * Z * Z)%type |- _ => destruct r as [[? ?] ?]
  end;
  unfold lex_lt in *; simpl in *;
  repeat match goal with
  | H : (_, _) = (_, _) |- _ => injection H as ? ?
  end;
  try lia.

Lemma lex_lt_total a b : lex_lt a b ∨ a = b ∨ lex_lt b a.
Proof.
  destruct a as [[a1 a2] a3], b as [[b1 b2] b3]. unfold lex_lt; simpl.
  destruct (Z.lt_trichotomy a1 b1) as [?|[->|?]]; [lia| |lia].
  destruct (Z.lt_trichotomy a2 b2) as [?|[->|?]]; [lia| |lia].
  destruct (Z.lt_trichotomy a3 b3) as [?|[->|?]]; [lia|by right; left|lia].
Qed.

Lemma lex_lt_trans a b c : lex_lt a b → lex_lt b c → lex_lt a c.
Proof. intros. rank_order. Qed.

Lemma lex_lt_irrefl a : ¬ lex_lt a a.
Proof. intros ?. rank_order. Qed.

(** [not (y < x)] is [x <= y] away from NaN. *)
Lemma float_not_lt_le x y :
  Py.is_nan x = false → Py.is_nan y = false →
  Py.float_lt y x = false → Py.float_le x y = true.
Proof.
  intros Hx Hy Hlt. apply float_le_rank; [done..|].
  destruct (lex_lt_total (rank x) (rank y)) as [?|[?|H]]; [by left|by right|].
  apply (float_lt_rank y x Hy Hx) in H. congruence.
Qed.

Lemma float_lt_le x y : Py.float_lt x y = true → Py.float_le x y = true.
Proof.
  unfold Py.float_lt, Py.float_le, SFltb, SFleb.
  by destruct (SFcompare x y) as [[]|].
Qed.


Lemma float_le_trans x y z :
  Py.float_le x y = true → Py.float_le y z = true → Py.float_le x z = true.
Proof.
  intros Hxy Hyz.
  destruct (float_le_not_nan _ _ Hxy) as [Hx Hy], (float_le_not_nan _ _ Hyz) as [_ Hz].
  apply float_le_rank in Hxy, Hyz; [|done..]. apply float_le_rank; [done..|].
  destruct Hxy as [?|Hxy], Hyz as [?|Hyz];
    try rewrite Hxy; try rewrite <- Hyz; eauto using lex_lt_trans.
Qed.

(** Two floats equal to a third are not below one another. *)
Lemma float_eq_not_lt x y k :
  Py.float_eq x k = true → Py.float_eq y k = true → Py.float_lt y x = false.
Proof.
  intros Hx Hy.
  destruct (float_eq_not_nan _ _ Hx) as [Nx Nk], (float_eq_not_nan _ _ Hy) as [Ny _].
  apply float_eq_rank in Hx, Hy; [|done..].
  destruct (Py.float_lt y x) eqn:E; [|done].
  apply float_lt_rank in E; [|done..]. rewrite Hx, Hy in E. by apply lex_lt_irrefl in E.
Qed.

Lemma float_le_refl x : Py.is_nan x = false → Py.float_le x x = true.
Proof. intros Hx. apply float_le_rank; [done..|]. by right. Qed.

Lemma float_le_antisym x y :
  Py.float_le x y = true → Py.float_le y x = true → Py.float_eq x y = true.
Proof.
  intros Hxy Hyx. destruct (float_le_not_nan _ _ Hxy) as [Hx Hy].
  apply float_le_rank in Hxy, Hyx; [|done..]. apply float_eq_rank; [done..|].
  destruct Hxy as [Hxy|Hxy]; [|done]. destruct Hyx as [Hyx|Hyx]; [|done].
  destruct (lex_lt_irrefl _ (lex_lt_trans _ _ _ Hxy Hyx)).
Qed.

(** ** [sorted]: a permutation, in order, ties as in the input *)
Section sorted_facts.
Context {A : Type} (key : A → Py.float).
Implicit Types (l : list A) (x : A).

Lemma insert_sorted_perm x l : Py.insert_sorted key x l ≡ₚ x :: l.
Proof.
  induction l as [|y l IH]; simpl; [done|].
  destruct (Py.float_lt (key y) (key x)); [|done].
  rewrite IH. apply Permutation_swap.
Qed.

Lemma sorted_perm l : Py.sorted key l ≡ₚ l.
Proof.
  induction l as [|x l IH]; simpl; [done|].
  rewrite insert_sorted_perm. by rewrite IH.
Qed.

Lemma sorted_reverse_perm l : Py.sorted_reverse key l ≡ₚ l.
Proof.
  unfold Py.sorted_reverse.
  by rewrite reverse_Permutation, sorted_perm, reverse_Permutation.
Qed.

Lemma insert_sorted_asc x l :
  key_ok key x → Forall (key_ok key) l →
  StronglySorted (key_le key) l →
  StronglySorted (key_le key) (Py.insert_sorted key x l).
Proof.
  intros Hx Hl Hs. induction l as [|y l IH]; simpl.
  { repeat constructor. }
  apply Forall_cons in Hl as [Hy Hl]. apply StronglySorted_cons in Hs as [Hyl Hs].
  destruct (Py.float_lt (key y) (key x)) eqn:E.
  - apply StronglySorted_cons. split; [|by apply IH].
    rewrite insert_sorted_perm. constructor; [|done]. by apply float_lt_le.
  - assert (key_le key x y) as Hxy by by apply float_not_lt_le.
    apply StronglySorted_cons. split; [|by apply StronglySorted_cons].
    constructor; [done|].
    eapply Forall_impl; [exact Hyl|]. intros z Hz. by eapply float_le_trans.
Qed.

Lemma sorted_asc l :
  Forall (key_ok key) l → StronglySorted (key_le key) (Py.sorted key l).
Proof.
  induction 1 as [|x l Hx Hl IH]; simpl; [constructor|].
  apply insert_sorted_asc; [done| |done]. by rewrite sorted_perm.
Qed.

Lemma StronglySorted_reverse_flip (R : relation A) l :
  StronglySorted R l → StronglySorted (flip R) (reverse l).
Proof.
  induction 1 as [|x l Hs IH Hx]; [constructor|].
  rewrite reverse_cons. apply StronglySorted_app.
  split; [|split; [exact IH|repeat constructor]].
  intros x1 x2 H1 H2. apply list_elem_of_singleton in H2 as ->.
  rewrite elem_of_reverse in H1. unfold flip.
  rewrite Forall_forall in Hx. by apply Hx.
Qed.

Lemma sorted_reverse_desc l :
  Forall (key_ok key) l →
  StronglySorted (flip (key_le key)) (Py.sorted_reverse key l).
Proof.
  intros Hl. apply StronglySorted_reverse_flip, sorted_asc.
  by rewrite reverse_Permutation.
Qed.

Lemma insert_sorted_tie k x l :
  filter (tie key k) (Py.insert_sorted key x l) = filter (tie key k) (x :: l).
Proof.
  induction l as [|y l IH]; simpl; [done|].
  destruct (Py.float_lt (key y) (key x)) eqn:E; [|done].
  rewrite (filter_cons _ y), IH, !(filter_cons _ x), !(filter_cons _ y).
  destruct (decide (tie key k x)) as [Hx|Hx], (decide (tie key k y)) as [Hy|Hy];
    try done.
  unfold tie in *. by rewrite (float_eq_not_lt _ _ _ Hx Hy) in E.
Qed.

Lemma sorted_tie k l : filter (tie key k) (Py.sorted key l) = filter (tie key k) l.
Proof.
  induction l as [|x l IH]; simpl; [done|].
  by rewrite insert_sorted_tie, !(filter_cons _ x), IH.
Qed.

Lemma sorted_reverse_tie k l :
  filter (tie key k) (Py.sorted_reverse key l) = filter (tie key k) l.
Proof.
  unfold Py.sorted_reverse.
  by rewrite filter_reverse, sorted_tie, filter_reverse, reverse_involutive.
Qed.
End sorted_facts.

(** A permutation in order with its ties as in the input is the only one. *)
Section sorted_unique.
Context {A : Type} (key : A → Py.float).
Implicit Types (l : list A) (x : A).

Lemma sorted_head_le x l y :
  key_ok key x → StronglySorted (key_le key) (x :: l) → y ∈ x :: l → key_le key x y.
Proof.
  intros Hx Hs Hy. apply StronglySorted_cons in Hs as [Hl _].
  apply elem_of_cons in Hy as [->|Hy]; [by apply float_le_refl|].
  rewrite Forall_forall in Hl. by apply Hl.
Qed.

Lemma ascending_unique l1 l2 :
  Forall (key_ok key) l1 → l1 ≡ₚ l2 →
  StronglySorted (key_le key) l1 → StronglySorted (key_le key) l2 →
  (∀ k, filter (tie key k) l1 = filter (tie key k) l2) →
  l1 = l2.
Proof.
  intros Hok. revert l2. induction l1 as [|x l1 IH]; intros l2 Hperm Hs1 Hs2 Hf.
  { by apply Permutation_nil_l in Hperm. }
  destruct l2 as [|y l2]; [by apply Permutation_nil_r in Hperm|].
  apply Forall_cons in Hok as [Hx Hok].
  assert (key_ok key y) as Hy.
  { assert (Forall (key_ok key) (y :: l2)) as H by (rewrite <- Hperm; by constructor).
    by apply Forall_cons in H as [? _]. }
  assert (key_le key x y) as Hxy.
  { apply (sorted_head_le x l1); [done..|]. rewrite Hperm. by left. }
  assert (key_le key y x) as Hyx.
  { apply (sorted_head_le y l2); [done..|]. rewrite <- Hperm. by left. }
  assert (tie key (key x) x) as Hxx by (apply float_le_antisym; by apply float_le_refl).
  assert (tie key (key x) y) as Hyk by by apply float_le_antisym.
  pose proof (Hf (key x)) as Hfx.
  rewrite (filter_cons_True _ x), (filter_cons_True _ y) in Hfx by done.
  injection Hfx as <- _.
  f_equal. apply IH; [done|by eapply Permutation_cons_inv| | |].
  - by apply StronglySorted_cons in Hs1 as [_ ?].
  - by apply StronglySorted_cons in Hs2 as [_ ?].
  - intros k. specialize (Hf k). rewrite !(filter_cons _ x) in Hf.
    destruct (decide (tie key k x)); [by injection Hf|done].
Qed.

Lemma descending_unique l1 l2 :
  Forall (key_ok key) l1 → l1 ≡ₚ l2 →
  StronglySorted (flip (key_le key)) l1 → StronglySorted (flip (key_le key)) l2 →
  (∀ k, filter (tie key k) l1 = filter (tie key k) l2) →
  l1 = l2.
Proof.
  intros Hok Hperm Hs1 Hs2 Hf.
  apply (inj reverse). apply ascending_unique.
  - by rewrite reverse_Permutation.
  - by rewrite !reverse_Permutation.
  - apply (StronglySorted_reverse_flip (flip (key_le key))), Hs1.
  - apply (StronglySorted_reverse_flip (flip (key_le key))), Hs2.
  - intros k. by rewrite !filter_reverse, Hf.
Qed.
End sorted_unique.

(** ** The float arithmetic of the scores, by evaluation *)

Lemma Forall_seqZ (P : Z → Prop) lo n z :
  Forall P (seqZ lo n) → lo ≤ z < lo + n → P z.
Proof. rewrite Forall_forall. intros H Hz. apply H, elem_of_seqZ. lia. Qed.

Lemma pillar_pscore_table :
  Forall (λ v1, Forall (λ v2,
    pillar_pscore [v1; v2] = Py.Ok (Py.float_of_Z (10 * (v1 + v2))))
    (seqZ 0 6)) (seqZ 0 6).
Proof. apply (bool_decide_unpack _). by vm_compute. Qed.

Lemma float_add_table :
  Forall (λ a, Forall (λ b,
    Py.float_add (Py.float_of_Z (10 * a)) (Py.float_of_Z (10 * b))
    = Py.float_of_Z (10 * (a + b))) (seqZ 0 11)) (seqZ 0 41).
Proof. apply (bool_decide_unpack _). by vm_compute. Qed.

Lemma float_div5_table :
  Forall (λ s, Py.float_truediv_int (Py.float_of_Z (10 * s)) 5
               = Py.Ok (Py.float_of_Z (2 * s))) (seqZ 0 51).
Proof. apply (bool_decide_unpack _). by vm_compute. Qed.

Lemma in_0_100_table : Forall (λ n, in_0_100 (Py.float_of_Z n)) (seqZ 0 101).
Proof. apply (bool_decide_unpack _). by vm_compute. Qed.


(** On the scale a pillar scores ten times the sum of its two ratings. *)
Lemma pillar_pscore_rated v1 v2 :
  0 ≤ v1 ≤ 5 → 0 ≤ v2 ≤ 5 →
  pillar_pscore [v1; v2] = Py.Ok (Py.float_of_Z (10 * (v1 + v2))).
Proof.
  intros H1 H2.
  pose proof (Forall_seqZ _ _ _ v1 pillar_pscore_table ltac:(lia)) as H.
  exact (Forall_seqZ _ _ _ v2 H ltac:(lia)).
Qed.

Lemma float_add_tens a b :
  0 ≤ a ≤ 40 → 0 ≤ b ≤ 10 →
  Py.float_add (Py.float_of_Z (10 * a)) (Py.float_of_Z (10 * b))
  = Py.float_of_Z (10 * (a + b)).
Proof.
  intros H1 H2.
  pose proof (Forall_seqZ _ _ _ a float_add_table ltac:(lia)) as H.
  exact (Forall_seqZ _ _ _ b H ltac:(lia)).
Qed.

Lemma float_div5_tens s :
  0 ≤ s ≤ 50 →
  Py.float_truediv_int (Py.float_of_Z (10 * s)) 5 = Py.Ok (Py.float_of_Z (2 * s)).
Proof. intros H. exact (Forall_seqZ _ _ _ s float_div5_table ltac:(lia)). Qed.

Lemma in_0_100_of_Z n : 0 ≤ n ≤ 100 → in_0_100 (Py.float_of_Z n).
Proof. intros H. exact (Forall_seqZ _ _ _ n in_0_100_table ltac:(lia)). Qed.

Lemma compensated_step_table :
  Forall (λ a, Forall (λ b,
    Py.compensated_step (Py.float_of_Z (10 * a), Py.float_of_Z 0) (Py.float_of_Z (10 * b))
    = (Py.float_of_Z (10 * (a + b)), Py.float_of_Z 0)) (seqZ 0 11)) (seqZ 0 41).
Proof. apply (bool_decide_unpack _). by vm_compute. Qed.

Lemma compensated_step_tens a b :
  0 ≤ a ≤ 40 → 0 ≤ b ≤ 10 →
  Py.compensated_step (Py.float_of_Z (10 * a), Py.float_of_Z 0) (Py.float_of_Z (10 * b))
  = (Py.float_of_Z (10 * (a + b)), Py.float_of_Z 0).
Proof.
  intros H1 H2.
  pose proof (Forall_seqZ _ _ _ a compensated_step_table ltac:(lia)) as H.
  exact (Forall_seqZ _ _ _ b H ltac:(lia)).
Qed.

(** On five scores of ratings on the scale the compensated sum is the
    plain one. *)
Lemma float_sum_compensated_tens s1 s2 s3 s4 s5 :
  0 ≤ s1 ≤ 10 → 0 ≤ s2 ≤ 10 → 0 ≤ s3 ≤ 10 → 0 ≤ s4 ≤ 10 → 0 ≤ s5 ≤ 10 →
  let xs := (λ s, Py.float_of_Z (10 * s)) <$> [s1; s2; s3; s4; s5] in
  Py.float_sum_compensated xs = Py.float_sum xs ∧
  Py.float_sum xs = Py.float_of_Z (10 * (s1 + s2 + s3 + s4 + s5)).
Proof.
  intros H1 H2 H3 H4 H5 xs. subst xs.
  unfold Py.float_sum_compensated, Py.float_sum. cbn [fmap list_fmap foldl].
  change (Py.float_of_Z 0) with (Py.float_of_Z (10 * 0)) at 1 3 4.
  rewrite !compensated_step_tens, !float_add_tens by lia.
  cbn [Py.is_zero Py.float_of_Z binary_normalize negb andb].
  split; [reflexivity|]. f_equal; lia.
Qed.

(** ** The loop of [compute_scores] *)

Lemma dict_get_within lo hi answers q :
  lo ≤ 0 ≤ hi → rated_within lo hi answers → lo ≤ Py.dict_get answers q 0 ≤ hi.
Proof.
  intros H0 Hr. unfold Py.dict_get.
  destruct (answers !! q) as [v|] eqn:E; simpl; [|done].
  exact (Hr q v E).
Qed.

Lemma score_pillar_Ok answers acc pname qids s :
  pillar_pscore (pillar_vals answers qids) = Py.Ok s →
  score_pillar answers (Py.Ok acc) (pname, qids)
  = Py.Ok (acc ++ [(pname, s, Py.dict (zip qids (pillar_vals answers qids)))]).
Proof. intros H. unfold score_pillar. cbn. by rewrite H. Qed.

Lemma score_pillar_Raise answers acc pname qids e :
  pillar_pscore (pillar_vals answers qids) = Py.Raise e →
  score_pillar answers (Py.Ok acc) (pname, qids) = Py.Raise e.
Proof. intros H. unfold score_pillar. cbn. by rewrite H. Qed.

Lemma foldl_score_pillar_Raise answers e pillars :
  foldl (score_pillar answers) (Py.Raise e) pillars = Py.Raise e.
Proof. induction pillars as [|p pillars IH]; [done|]. exact IH. Qed.

Lemma foldl_score_pillar_inv answers pillars acc ps :
  foldl (score_pillar answers) (Py.Ok acc) pillars = Py.Ok ps →
  ∃ ts, ps = acc ++ ts ∧ Forall2 (scored answers) pillars ts.
Proof.
  revert acc. induction pillars as [|[pname qids] pillars IH]; intros acc; cbn [foldl].
  - intros [= <-]. exists []. by rewrite app_nil_r.
  - destruct (pillar_pscore (pillar_vals answers qids)) as [s|e] eqn:E.
    + rewrite (score_pillar_Ok _ _ _ _ _ E). intros H.
      destruct (IH _ H) as (ts & -> & Hts).
      eexists (_ :: ts). rewrite <- app_assoc. split; [done|].
      constructor; [|done]. by exists s.
    + rewrite (score_pillar_Raise _ _ _ _ _ E), foldl_score_pillar_Raise. done.
Qed.





Lemma float_truediv_int_5 x :
  Py.float_truediv_int x 5 = Py.Ok (SFdiv Py.prec Py.emax x (Py.float_of_Z 5)).
Proof. done. Qed.

Lemma pillar_pscore_unanswered vals :
  Forall (λ v, v = 0) vals → pillar_pscore vals = Py.Ok float_zero.
Proof.
  intros H. unfold pillar_pscore.
  replace (forallb (λ v, v =? 0) vals) with true; [by rewrite orb_true_r|].
  symmetry. apply forallb_forall. intros v Hv.
  rewrite Forall_forall in H. apply Z.eqb_eq, H. by apply list_elem_of_In.
Qed.


Lemma compute_scores_inv answers ps overall :
  compute_scores answers = Py.Ok (ps, overall) →
  Forall2 (scored answers) PILLARS ps ∧
  Py.float_truediv_int (Py.float_sum (Py.get1 <$> ps)) 5 = Py.Ok overall.
Proof.
  unfold compute_scores.
  destruct (foldl _ _ PILLARS) as [ps'|e] eqn:E; [|done].
  destruct (foldl_score_pillar_inv _ _ _ _ E) as (ts & -> & Hts).
  pose proof (Forall2_length _ _ _ Hts) as Hlen.
  cbn [mbind Py.result_bind app]. rewrite <- Hlen.
  change (Z.of_nat (length PILLARS)) with 5. rewrite float_truediv_int_5.
  by intros [= <- <-].
Qed.




(** On the scale the scores are exact: every pillar scores ten times the
    sum of its ratings, and the overall score is twice the sum of all ten. *)
Lemma compute_scores_rated answers :
  rated_within 0 5 answers →
  compute_scores answers
  = Py.Ok (rated_tuple answers <$> PILLARS, Py.float_of_Z (2 * rating_total answers)).
Proof.
  intros Hr.
  assert (∀ q, 0 ≤ Py.dict_get answers q 0 ≤ 5) as Hq
    by (intros q; by apply dict_get_within).
  unfold compute_scores, PILLARS. cbn [foldl mret Py.result_ret].
  repeat (erewrite score_pillar_Ok; [|apply pillar_pscore_rated; apply Hq]).
  cbn [app mbind Py.result_bind length fmap list_fmap Py.get1 fst snd].
  unfold Py.float_sum. cbn [foldl].
  change (Py.float_of_Z 0) with (Py.float_of_Z (10 * 0)).
  pose proof (Hq "A1"); pose proof (Hq "A2"); pose proof (Hq "B1");
  pose proof (Hq "B2"); pose proof (Hq "C1"); pose proof (Hq "C2");
  pose proof (Hq "D1"); pose proof (Hq "D2"); pose proof (Hq "E1");
  pose proof (Hq "E2").
  rewrite !float_add_tens by lia.
  change (Z.of_nat 5) with 5. rewrite float_div5_tens by lia.
  unfold rating_total, rated_tuple, PILLARS, pillar_vals, Py.int_sum.
  cbn [fmap list_fmap mjoin list_join app foldl fst snd mbind Py.result_bind
       mret Py.result_ret].
  do 3 f_equal; lia.
Qed.

(** The score of every tuple of [rated_tuple] and the total, bounded. *)
Lemma rated_scores_bounds answers :
  rated_within 0 5 answers →
  Forall (λ p, in_0_100 (Py.get1 p)) (rated_tuple answers <$> PILLARS) ∧
  0 ≤ rating_total answers ≤ 50.
Proof.
  intros Hr.
  assert (∀ q, 0 ≤ Py.dict_get answers q 0 ≤ 5) as Hq
    by (intros q; by apply dict_get_within).
  pose proof (Hq "A1"); pose proof (Hq "A2"); pose proof (Hq "B1");
  pose proof (Hq "B2"); pose proof (Hq "C1"); pose proof (Hq "C2");
  pose proof (Hq "D1"); pose proof (Hq "D2"); pose proof (Hq "E1");
  pose proof (Hq "E2").
  unfold rating_total, rated_tuple, PILLARS, pillar_vals, Py.int_sum, Py.get1.
  cbn [fmap list_fmap mjoin list_join app foldl fst snd].
  split; [|lia]. repeat constructor; apply in_0_100_of_Z; lia.
Qed.

(** ** Score computation *)

(** C1. For every answer set, a partial mapping from question identifiers
    to ratings in [1, 5], [compute_scores] returns five pillar tuples and
    an overall score, and every pillar score and the overall score lie in
    the closed interval [0, 100]. *)
Theorem scores_within_0_100 (answers : gmap string Z) :
  rated_within 1 5 answers →
  ∃ ps overall,
    compute_scores answers = Py.Ok (ps, overall) ∧
    length ps = 5%nat ∧
    Forall (λ p, in_0_100 (Py.get1 p)) ps ∧
    in_0_100 overall.
Proof.
  intros Hr.
  assert (rated_within 0 5 answers) as Hr0.
  { eapply map_Forall_impl; [exact Hr|]. intros q v Hv. simpl in *. lia. }
  destruct (rated_scores_bounds answers Hr0) as [Hps Htot].
  eexists _, _. split; [by apply compute_scores_rated|].
  split; [done|]. split; [done|].
  apply in_0_100_of_Z. lia.
Qed.

Lemma scores_within_0_100_witness :
  ∃ ps overall,
    compute_scores example_answers = Py.Ok (ps, overall) ∧
    length ps = 5%nat ∧
    Forall (λ p, in_0_100 (Py.get1 p)) ps ∧
    in_0_100 overall.
Proof.
  apply (scores_within_0_100 example_answers).
  apply (bool_decide_unpack _). vm_compute. exact I.
Defined.




(** C4. A pillar whose questions are all missing or rated 0 scores
    exactly [+0.0] whenever [compute_scores] returns, which it does on
    every answer set with ratings in [0, 5]; on the empty answer set every
    pillar score is 0, the overall score is 0 and its tier is
    "Emerging". *)
Theorem unanswered_pillar_scores_zero :
  (∀ answers ps overall i pname qids,
     compute_scores answers = Py.Ok (ps, overall) →
     PILLARS !! i = Some (pname, qids) →
     (∀ q, q ∈ qids → Py.dict_get answers q 0 = 0) →
     ∃ detail, ps !! i = Some (pname, float_zero, detail)) ∧
  (∀ answers, rated_within 0 5 answers →
     ∃ ps overall, compute_scores answers = Py.Ok (ps, overall)) ∧
  (scores_view <$> compute_scores ∅
   = Py.Ok ((λ pillar, (pillar.1, float_zero)) <$> PILLARS, float_zero) ∧
   tier_for float_zero = Py.Ok "Emerging").
Proof.
  split; [|split].
  - intros answers ps overall i pname qids Hc Hi Hq.
    destruct (compute_scores_inv _ _ _ Hc) as [Hps _].
    destruct (Forall2_lookup_l _ _ _ _ _ Hps Hi) as (t & Ht & s & Hs & ->).
    cbn [fst snd] in *. rewrite pillar_pscore_unanswered in Hs.
    + injection Hs as <-. by eexists.
    + unfold pillar_vals. apply Forall_fmap, Forall_forall. intros q Hin. by apply Hq.
  - intros answers Hr. eexists _, _. by apply compute_scores_rated.
  - split; vm_compute; reflexivity.
Qed.

Lemma unanswered_pillar_scores_zero_witness :
  ∃ ps overall detail,
    compute_scores (delete "A1" (delete "A2" example_answers)) = Py.Ok (ps, overall) ∧
    ps !! 0%nat = Some ("A. Channel Strategy & Alignment", float_zero, detail).
Proof.
  destruct unanswered_pillar_scores_zero as (Hzero & Hok & _).
  destruct (Hok (delete "A1" (delete "A2" example_answers))) as (ps & overall & Hc).
  { apply (bool_decide_unpack _). vm_compute. exact I. }
  destruct (Hzero _ ps overall 0%nat _ _ Hc eq_refl) as [detail Hd].
  { intros q. rewrite !elem_of_cons, elem_of_nil.
    intros [->|[->|[]]]; vm_compute; reflexivity. }
  exists ps, overall, detail. split; assumption.
Defined.

(** C7. The worked example: pillar scores 100, 60, 20, 60, 100 in
    catalog order, overall score 68, tier "Established". *)
Theorem worked_example :
  scores_view <$> compute_scores example_answers
  = Py.Ok ([ ("A. Channel Strategy & Alignment",    Py.float_of_Z 100);
             ("B. Partner Program Design",          Py.float_of_Z 60);
             ("C. Partner Enablement & Engagement", Py.float_of_Z 20);
             ("D. Sales & Operations Integration",  Py.float_of_Z 60);
             ("E. Growth Readiness",                Py.float_of_Z 100) ],
           Py.float_of_Z 68) ∧
  Py.round (Py.float_of_Z 68) = Py.Ok 68 ∧
  tier_for (Py.float_of_Z 68) = Py.Ok "Established".
Proof. repeat split; vm_compute; reflexivity. Qed.

(** ** Tier classification *)

Lemma round_half_even_nearest m e :
  e < 0 → 2 * Z.abs (Zpos m - Py.round_half_even m e * 2 ^ (- e)) ≤ 2 ^ (- e).
Proof.
  intros He. destruct e as [|p|p]; try lia.
  unfold Py.round_half_even. change (- Z.neg p) with (Z.pos p).
  set (d := 2 ^ Z.pos p). assert (0 < d) as Hd by (apply Z.pow_pos_nonneg; lia).
  pose proof (Z.div_mod (Z.pos m) d ltac:(lia)) as Hdm.
  pose proof (Z.mod_pos_bound (Z.pos m) d Hd) as Hr.
  set (q := Z.pos m / d) in *. set (r := Z.pos m mod d) in *.
  destruct (Z.compare_spec (2 * r) d); [destruct (Z.even q)| |]; nia.
Qed.

Lemma round_nearest x n : Py.round x = Py.Ok n → nearest_integer x n.
Proof.
  destruct x as [s|s| |s m e]; simpl; try discriminate; intros [= <-]; [done|].
  destruct (Z.ltb_spec e 0) as [He|He].
  - pose proof (round_half_even_nearest m e He). destruct s; simpl; lia.
  - unfold Py.round_half_even. destruct e; try lia; destruct s; simpl; lia.
Qed.

Lemma round_finite x : is_finite x = true → ∃ s, Py.round x = Py.Ok s.
Proof. destruct x; try discriminate; simpl; eauto. Qed.

Lemma tier_of_rounded_band s name lo hi :
  (name, lo, hi) ∈ TIER_BANDS → lo ≤ s ≤ hi → tier_of_rounded s TIER_BANDS = name.
Proof.
  unfold TIER_BANDS. rewrite !elem_of_cons, elem_of_nil.
  intros [H|[H|[H|[H|[]]]]] Hs; injection H as -> -> ->; simpl;
    repeat match goal with
    | |- context [?a <=? ?b] => destruct (Z.leb_spec a b); try lia
    end; reflexivity.
Qed.

Lemma tier_of_rounded_no_band s :
  in_no_band s → tier_of_rounded s TIER_BANDS = "Unknown".
Proof.
  intros H.
  assert (¬ (0 ≤ s ≤ 39)) by (apply (H "Emerging"); repeat constructor).
  assert (¬ (40 ≤ s ≤ 59)) by (apply (H "Developing"); repeat constructor).
  assert (¬ (60 ≤ s ≤ 79)) by (apply (H "Established"); repeat constructor).
  assert (¬ (80 ≤ s ≤ 100)) by (apply (H "Optimized"); repeat constructor).
  unfold TIER_BANDS. simpl.
  repeat match goal with
  | |- context [(?a <=? s) && (s <=? ?b)] =>
      destruct (Z.leb_spec a s); destruct (Z.leb_spec s b); simpl; try lia
  end; reflexivity.
Qed.

Lemma tier_of_rounded_0_100 s :
  0 ≤ s ≤ 100 → tier_of_rounded s TIER_BANDS ∈ tier_names.
Proof.
  intros H. unfold TIER_BANDS, tier_names. simpl.
  repeat match goal with
  | |- context [(?a <=? s) && (s <=? ?b)] =>
      destruct (Z.leb_spec a s); destruct (Z.leb_spec s b); simpl; try lia
  end; repeat constructor.
Qed.

(** C3. [tier_for] rounds its argument to the nearest integer and returns
    the name of the band of the table that holds it, both ends included:
    the table is Emerging [0, 39], Developing [40, 59], Established
    [60, 79], Optimized [80, 100], and at the boundaries 39.4 is
    "Emerging", 39.5 "Developing", 59.4 "Developing", 59.5 "Established",
    79.4 "Established", 79.5 "Optimized". *)
Theorem tier_for_rounds_into_band :
  (∀ score s name lo hi,
     Py.round score = Py.Ok s →
     (name, lo, hi) ∈ TIER_BANDS → lo ≤ s ≤ hi →
     nearest_integer score s ∧ tier_for score = Py.Ok name) ∧
  TIER_BANDS = [("Emerging", 0, 39); ("Developing", 40, 59);
                ("Established", 60, 79); ("Optimized", 80, 100)] ∧
  tier_for (Py.decimal 394 1) = Py.Ok "Emerging" ∧
  tier_for (Py.decimal 395 1) = Py.Ok "Developing" ∧
  tier_for (Py.decimal 594 1) = Py.Ok "Developing" ∧
  tier_for (Py.decimal 595 1) = Py.Ok "Established" ∧
  tier_for (Py.decimal 794 1) = Py.Ok "Established" ∧
  tier_for (Py.decimal 795 1) = Py.Ok "Optimized".
Proof.
  split; [|repeat split; vm_compute; reflexivity].
  intros score s name lo hi Hr Hb Hs. split; [by apply round_nearest|].
  unfold tier_for. rewrite Hr. cbn [mbind Py.result_bind mret Py.result_ret].
  f_equal. by eapply tier_of_rounded_band.
Qed.

Lemma tier_for_rounds_into_band_witness :
  nearest_integer (Py.decimal 395 1) 40 ∧
  tier_for (Py.decimal 395 1) = Py.Ok "Developing".
Proof.
  destruct tier_for_rounds_into_band as [H _].
  apply (H (Py.decimal 395 1) 40 "Developing" 40 59).
  - vm_compute. reflexivity.
  - apply (bool_decide_unpack _). vm_compute. exact I.
  - lia.
Defined.

(** C8, as stated, fails: [round] raises on a float that is no number or
    is infinite, and so does [tier_for]. *)
Lemma tier_for_raises_on_nan_and_infinity :
  tier_for S754_nan = Py.Raise Py.ValueError ∧
  tier_for (S754_infinity false) = Py.Raise Py.OverflowError ∧
  tier_for (S754_infinity true) = Py.Raise Py.OverflowError.
Proof. repeat split; reflexivity. Qed.

(** C8, as the code has it. On every finite float score [tier_for]
    returns without raising: it returns the sentinel "Unknown" when the
    rounded score falls in no band, and one of the four tier names, never
    "Unknown", when the rounded score lies in [0, 100]. *)
Theorem tier_for_total_on_finite (score : Py.float) :
  is_finite score = true →
  ∃ s name,
    Py.round score = Py.Ok s ∧
    tier_for score = Py.Ok name ∧
    (in_no_band s → name = "Unknown") ∧
    (0 ≤ s ≤ 100 → name ∈ tier_names ∧ name ≠ "Unknown").
Proof.
  intros Hf. destruct (round_finite _ Hf) as [s Hs].
  exists s, (tier_of_rounded s TIER_BANDS). split; [exact Hs|].
  split; [unfold tier_for; by rewrite Hs|].
  split; [apply tier_of_rounded_no_band|].
  intros H. pose proof (tier_of_rounded_0_100 s H) as Hin.
  split; [exact Hin|]. intros Heq. rewrite Heq in Hin. clear -Hin.
  unfold tier_names in Hin. rewrite !elem_of_cons, elem_of_nil in Hin.
  destruct Hin as [?|[?|[?|[?|[]]]]]; discriminate.
Qed.

Lemma tier_for_total_on_finite_witness :
  ∃ s name,
    Py.round (Py.decimal 1015 1) = Py.Ok s ∧
    tier_for (Py.decimal 1015 1) = Py.Ok name ∧
    (in_no_band s → name = "Unknown") ∧
    (0 ≤ s ≤ 100 → name ∈ tier_names ∧ name ≠ "Unknown").
Proof.
  apply (tier_for_total_on_finite (Py.decimal 1015 1)).
  vm_compute. reflexivity.
Defined.

(** ** Commentary *)




(** ** Strengths, gaps and recommendations *)

Lemma derive_strengths_gaps_split (ps : list pillar_tuple) :
  length ps = 5%nat →
  derive_strengths_gaps ps
  = (Py.get0 <$> take 2 (Py.sorted_reverse Py.get1 ps),
     Py.get0 <$> drop 2 (Py.sorted_reverse Py.get1 ps)).
Proof.
  intros Hlen. unfold derive_strengths_gaps, Py.slice_to, Py.slice_last.
  replace (length (Py.sorted_reverse Py.get1 ps)) with 5%nat; [done|].
  by rewrite (Permutation_length (sorted_reverse_perm Py.get1 ps)).
Qed.

(** C5. On five tuples (no score NaN) [derive_strengths_gaps] sorts by
    score descending, ties in input order; the strengths are the names of
    the first two tuples of that list and the gaps the names of its last
    three, so the gaps run from least bad to worst; the two lists hold
    two and three names, together they are the five names of the input,
    and when these are distinct no name is in both. *)
Theorem strengths_gaps_partition (ps : list pillar_tuple) :
  length ps = 5%nat → no_nan ps →
  ∃ sorted_p first2 last3,
    sorted_p ≡ₚ ps ∧ descending sorted_p ∧ ties_in_input_order ps sorted_p ∧
    (∀ l, l ≡ₚ ps → descending l → ties_in_input_order ps l → l = sorted_p) ∧
    sorted_p = first2 ++ last3 ∧
    length first2 = 2%nat ∧ length last3 = 3%nat ∧
    derive_strengths_gaps ps = (Py.get0 <$> first2, Py.get0 <$> last3) ∧
    (Py.get0 <$> first2) ++ (Py.get0 <$> last3) ≡ₚ Py.get0 <$> ps ∧
    (NoDup (Py.get0 <$> ps) →
     ∀ n, n ∈ Py.get0 <$> first2 → n ∉ Py.get0 <$> last3).
Proof.
  intros Hlen Hnan.
  set (sp := Py.sorted_reverse Py.get1 ps).
  assert (sp ≡ₚ ps) as Hperm by apply sorted_reverse_perm.
  assert (length sp = 5%nat) as Hlen' by by rewrite (Permutation_length Hperm).
  assert ((Py.get0 <$> take 2 sp) ++ (Py.get0 <$> drop 2 sp) ≡ₚ Py.get0 <$> ps)
    as Hnames by by rewrite <- fmap_app, take_drop, Hperm.
  exists sp, (take 2 sp), (drop 2 sp).
  split; [exact Hperm|].
  split; [by apply sorted_reverse_desc|].
  split; [intros k; apply sorted_reverse_tie|].
  split.
  { intros l Hl Hdesc Hties. apply (descending_unique Py.get1); [|by rewrite Hl| | |].
    - by rewrite Hl.
    - exact Hdesc.
    - by apply sorted_reverse_desc.
    - intros k. rewrite Hties. symmetry. apply sorted_reverse_tie. }
  split; [by rewrite take_drop|].
  split; [rewrite length_take; lia|].
  split; [rewrite length_drop; lia|].
  split; [by apply derive_strengths_gaps_split|].
  split; [exact Hnames|].
  intros Hnd. rewrite <- Hnames in Hnd. apply NoDup_app in Hnd as (_ & Hdisj & _).
  exact Hdisj.
Qed.

Lemma strengths_gaps_partition_witness :
  ∃ sorted_p first2 last3,
    sorted_p ≡ₚ example_tuples ∧ descending sorted_p ∧
    ties_in_input_order example_tuples sorted_p ∧
    (∀ l, l ≡ₚ example_tuples → descending l →
          ties_in_input_order example_tuples l → l = sorted_p) ∧
    sorted_p = first2 ++ last3 ∧
    length first2 = 2%nat ∧ length last3 = 3%nat ∧
    derive_strengths_gaps example_tuples = (Py.get0 <$> first2, Py.get0 <$> last3) ∧
    (Py.get0 <$> first2) ++ (Py.get0 <$> last3) ≡ₚ Py.get0 <$> example_tuples ∧
    (NoDup (Py.get0 <$> example_tuples) →
     ∀ n, n ∈ Py.get0 <$> first2 → n ∉ Py.get0 <$> last3).
Proof.
  apply (strengths_gaps_partition example_tuples).
  - reflexivity.
  - repeat (constructor; [vm_compute; reflexivity|]). constructor.
Defined.

(** C6. On five tuples (no score NaN) [recommend_actions] returns
    exactly three strings, one for each of the three lowest-scoring
    tuples, worst first, ties in input order: the playbook entry of the
    pillar name, or for a name the playbook lacks, ASCII or not, the
    generic string made from that name as [str.lower] gives it. Every
    pillar of the catalog has its playbook entry. *)
Theorem recommend_three_lowest (lower : string → string) (ps : list pillar_tuple) :
  length ps = 5%nat → no_nan ps →
  ∃ sorted_p lows rest,
    sorted_p ≡ₚ ps ∧ ascending sorted_p ∧ ties_in_input_order ps sorted_p ∧
    (∀ l, l ≡ₚ ps → ascending l → ties_in_input_order ps l → l = sorted_p) ∧
    sorted_p = lows ++ rest ∧ length lows = 3%nat ∧
    recommend_actions lower ps
    = (λ p, match playbook !! Py.get0 p with
            | Some action => action
            | None => generic_action lower (Py.get0 p)
            end) <$> lows ∧
    length (recommend_actions lower ps) = 3%nat ∧
    ∀ pname qids, (pname, qids) ∈ PILLARS → is_Some (playbook !! pname).
Proof.
  intros Hlen Hnan.
  set (sp := Py.sorted Py.get1 ps).
  assert (sp ≡ₚ ps) as Hperm by apply sorted_perm.
  assert (length sp = 5%nat) as Hlen' by by rewrite (Permutation_length Hperm).
  exists sp, (take 3 sp), (drop 3 sp).
  split; [exact Hperm|].
  split; [by apply sorted_asc|].
  split; [intros k; apply sorted_tie|].
  split.
  { intros l Hl Hasc Hties. apply (ascending_unique Py.get1); [|by rewrite Hl| | |].
    - by rewrite Hl.
    - exact Hasc.
    - by apply sorted_asc.
    - intros k. rewrite Hties. symmetry. apply sorted_tie. }
  split; [by rewrite take_drop|].
  split; [rewrite length_take; lia|].
  split; [|split].
  - unfold recommend_actions, Py.slice_to. fold sp.
    apply list_fmap_ext. intros _ p _.
    unfold action_for, Py.dict_get, generic_action.
    by destruct (playbook !! Py.get0 p).
  - unfold recommend_actions, Py.slice_to. fold sp.
    rewrite length_fmap, length_take. lia.
  - intros pname qids. unfold PILLARS. rewrite !elem_of_cons, elem_of_nil.
    intros [H|[H|[H|[H|[H|[]]]]]]; injection H as -> _;
      vm_compute; eexists; reflexivity.
Qed.

Lemma recommend_three_lowest_witness :
  ∃ sorted_p lows rest,
    sorted_p ≡ₚ example_tuples ∧ ascending sorted_p ∧
    ties_in_input_order example_tuples sorted_p ∧
    (∀ l, l ≡ₚ example_tuples → ascending l →
          ties_in_input_order example_tuples l → l = sorted_p) ∧
    sorted_p = lows ++ rest ∧ length lows = 3%nat ∧
    recommend_actions Py.lower example_tuples
    = (λ p, match playbook !! Py.get0 p with
            | Some action => action
            | None => generic_action Py.lower (Py.get0 p)
            end) <$> lows ∧
    length (recommend_actions Py.lower example_tuples) = 3%nat ∧
    ∀ pname qids, (pname, qids) ∈ PILLARS → is_Some (playbook !! pname).
Proof.
  apply (recommend_three_lowest Py.lower example_tuples).
  - reflexivity.
  - repeat (constructor; [vm_compute; reflexivity|]). constructor.
Defined.

(** ** The two source files *)

(** C10. The scoring cores of [XplainIQLite.py] and
    [XplainIQLite_Final.py] agree: the same catalogs, and the same result
    of each of the five functions on every input. *)
Theorem final_core_agrees :
  XplainIQLite.PILLARS = XplainIQLite_Final.PILLARS ∧
  XplainIQLite.TIER_BANDS = XplainIQLite_Final.TIER_BANDS ∧
  (∀ answers,
     XplainIQLite.compute_scores answers = XplainIQLite_Final.compute_scores answers) ∧
  (∀ score, XplainIQLite.tier_for score = XplainIQLite_Final.tier_for score) ∧
  (∀ ps, XplainIQLite.derive_strengths_gaps ps
         = XplainIQLite_Final.derive_strengths_gaps ps) ∧
  (∀ lower ps, XplainIQLite.recommend_actions lower ps
               = XplainIQLite_Final.recommend_actions lower ps) ∧
  (∀ pillar_name pscore,
     XplainIQLite.pillar_commentary pillar_name pscore
     = XplainIQLite_Final.pillar_commentary pillar_name pscore).
Proof. repeat split. Qed.

(** * More of the code

    ** The scores as a function of the answers *)

Lemma foldl_score_pillar_ext_on a1 a2 pillars acc :
  (∀ q, q ∈ mjoin (snd <$> pillars) → Py.dict_get a1 q 0 = Py.dict_get a2 q 0) →
  foldl (score_pillar a1) acc pillars = foldl (score_pillar a2) acc pillars.
Proof.
  revert acc. induction pillars as [|[pname qids] pillars IH]; intros acc Hq; [done|].
  cbn [foldl]. rewrite IH.
  - f_equal. unfold score_pillar.
    replace (pillar_vals a1 qids) with (pillar_vals a2 qids); [done|].
    unfold pillar_vals. apply list_fmap_ext. intros i q Hi. symmetry. apply Hq.
    cbn. apply elem_of_app. left. by eapply list_elem_of_lookup_2.
  - intros q Hin. apply Hq. cbn. apply elem_of_app. by right.
Qed.

Lemma compute_scores_ext_on a1 a2 :
  (∀ q, q ∈ catalog_qids → Py.dict_get a1 q 0 = Py.dict_get a2 q 0) →
  compute_scores a1 = compute_scores a2.
Proof.
  intros Hq. unfold compute_scores. by rewrite (foldl_score_pillar_ext_on a1 a2).
Qed.

Lemma Forall2_scored_names answers pillars ps :
  Forall2 (scored answers) pillars ps → Py.get0 <$> ps = fst <$> pillars.
Proof.
  induction 1 as [|pillar p pillars ps (s & _ & ->) _ IH]; [done|].
  cbn. by rewrite IH.
Qed.

(** X1. Whenever [compute_scores] returns, its list has one tuple per
    pillar of the catalog, in catalog order and under the catalog names,
    whatever the scores are, and the detail of each tuple has exactly the
    questions of its pillar as keys. *)
Theorem compute_scores_catalog_order answers ps overall :
  compute_scores answers = Py.Ok (ps, overall) →
  length ps = 5%nat ∧
  Py.get0 <$> ps = fst <$> PILLARS ∧
  Forall2 (λ pillar p, dom (Py.get2 p) = list_to_set (C := gset string) pillar.2)
          PILLARS ps.
Proof.
  intros Hc. destruct (compute_scores_inv _ _ _ Hc) as [Hps _].
  split; [by rewrite <- (Forall2_length _ _ _ Hps)|].
  split; [by eapply Forall2_scored_names|].
  unfold PILLARS in *.
  repeat match goal with
  | H : Forall2 _ (_ :: _) _ |- _ =>
      apply Forall2_cons_inv_l in H as (? & ? & (? & _ & ->) & H & ->)
  | H : Forall2 _ [] _ |- _ => apply Forall2_nil_inv_l in H as ->
  end.
  repeat constructor; unfold Py.get2, Py.dict, pillar_vals;
    cbn [fmap list_fmap zip zip_with foldl fst snd list_to_set foldr];
    rewrite !dom_insert_L, dom_empty_L; set_solver.
Qed.

Lemma compute_scores_catalog_order_witness :
  ∃ ps overall,
    compute_scores example_answers = Py.Ok (ps, overall) ∧
    length ps = 5%nat ∧
    Py.get0 <$> ps = fst <$> PILLARS.
Proof.
  assert (rated_within 0 5 example_answers) as Hr
    by (apply (bool_decide_unpack _); vm_compute; exact I).
  pose proof (compute_scores_rated example_answers Hr) as Hc.
  eexists _, _. split; [exact Hc|].
  destruct (compute_scores_catalog_order example_answers _ _ Hc)
    as (Hlen & Hnames & _).
  split; assumption.
Defined.

(** X2. [compute_scores] reads the ten questions of the catalog and
    nothing else: setting or removing any other key of the answers leaves
    its result, or its exception, as it was. *)
Theorem compute_scores_ignores_other_keys answers q v :
  q ∉ catalog_qids →
  compute_scores (<[q := v]> answers) = compute_scores answers ∧
  compute_scores (delete q answers) = compute_scores answers.
Proof.
  intros Hq. split; apply compute_scores_ext_on; intros q' Hq'; unfold Py.dict_get;
    assert (q ≠ q') by (intros ->; contradiction).
  - by rewrite lookup_insert_ne.
  - by rewrite lookup_delete_ne.
Qed.

Lemma compute_scores_ignores_other_keys_witness :
  compute_scores (<["a1" := 9]> example_answers) = compute_scores example_answers ∧
  compute_scores (delete "a1" example_answers) = compute_scores example_answers.
Proof.
  apply (compute_scores_ignores_other_keys example_answers "a1" 9).
  apply (bool_decide_unpack _). vm_compute. exact I.
Defined.

(** X3. A rating bears on its own pillar only: changing the rating of a
    question leaves the tuple of every pillar the question does not
    belong to as it was, name, score and detail. *)
Theorem rating_touches_one_pillar answers q v ps overall ps' overall' i pname qids :
  compute_scores answers = Py.Ok (ps, overall) →
  compute_scores (<[q := v]> answers) = Py.Ok (ps', overall') →
  PILLARS !! i = Some (pname, qids) → q ∉ qids →
  ps' !! i = ps !! i.
Proof.
  intros Hc Hc' Hi Hq.
  destruct (compute_scores_inv _ _ _ Hc) as [Hps _].
  destruct (compute_scores_inv _ _ _ Hc') as [Hps' _].
  destruct (Forall2_lookup_l _ _ _ _ _ Hps Hi) as (t & Ht & s & Hs & ->).
  destruct (Forall2_lookup_l _ _ _ _ _ Hps' Hi) as (t' & Ht' & s' & Hs' & ->).
  cbn [fst snd] in *.
  assert (pillar_vals (<[q := v]> answers) qids = pillar_vals answers qids) as Hv.
  { unfold pillar_vals. apply list_fmap_ext. intros j q' Hj. unfold Py.dict_get.
    rewrite lookup_insert_ne; [done|]. intros ->. apply Hq.
    by eapply list_elem_of_lookup_2. }
  rewrite Hv in *. rewrite Ht, Ht'. congruence.
Qed.

Lemma rating_touches_one_pillar_witness :
  ∃ ps overall ps' overall',
    compute_scores example_answers = Py.Ok (ps, overall) ∧
    compute_scores (<["A1" := 1]> example_answers) = Py.Ok (ps', overall') ∧
    ps' !! 1%nat = ps !! 1%nat.
Proof.
  assert (rated_within 0 5 example_answers) as Hr
    by (apply (bool_decide_unpack _); vm_compute; exact I).
  assert (rated_within 0 5 (<["A1" := 1]> example_answers)) as Hr'
    by (apply (bool_decide_unpack _); vm_compute; exact I).
  pose proof (compute_scores_rated _ Hr) as Hc.
  pose proof (compute_scores_rated _ Hr') as Hc'.
  eexists _, _, _, _. split; [exact Hc|]. split; [exact Hc'|].
  apply (rating_touches_one_pillar example_answers "A1" 1 _ _ _ _
           1%nat "B. Partner Program Design" ["B1"; "B2"] Hc Hc' eq_refl).
  apply (bool_decide_unpack _). vm_compute. exact I.
Defined.

(** ** Ratings on the scale: exact scores *)

Lemma round_of_Z_table :
  Forall (λ n, Py.round (Py.float_of_Z n) = Py.Ok n) (seqZ 0 101).
Proof. apply (bool_decide_unpack _). by vm_compute. Qed.

Lemma float_le_table :
  Forall (λ m, Forall (λ n,
    Py.float_le (Py.float_of_Z m) (Py.float_of_Z n) = (m <=? n)) (seqZ 0 101))
    (seqZ 0 101).
Proof. apply (bool_decide_unpack _). by vm_compute. Qed.

Lemma round_of_Z n : 0 ≤ n ≤ 100 → Py.round (Py.float_of_Z n) = Py.Ok n.
Proof. intros H. exact (Forall_seqZ _ _ _ n round_of_Z_table ltac:(lia)). Qed.

Lemma float_le_of_Z m n :
  0 ≤ m ≤ 100 → 0 ≤ n ≤ 100 →
  Py.float_le (Py.float_of_Z m) (Py.float_of_Z n) = (m <=? n).
Proof.
  intros H1 H2.
  pose proof (Forall_seqZ _ _ _ m float_le_table ltac:(lia)) as H.
  exact (Forall_seqZ _ _ _ n H ltac:(lia)).
Qed.

Lemma rated_vals_bounds answers :
  rated_within 0 5 answers →
  Forall (λ pillar, 0 ≤ Py.int_sum (pillar_vals answers pillar.2) ≤ 10) PILLARS.
Proof.
  intros Hr.
  assert (∀ q, 0 ≤ Py.dict_get answers q 0 ≤ 5) as Hq
    by (intros q; by apply dict_get_within).
  pose proof (Hq "A1"); pose proof (Hq "A2"); pose proof (Hq "B1");
  pose proof (Hq "B2"); pose proof (Hq "C1"); pose proof (Hq "C2");
  pose proof (Hq "D1"); pose proof (Hq "D2"); pose proof (Hq "E1");
  pose proof (Hq "E2").
  unfold PILLARS, pillar_vals, Py.int_sum.
  repeat (apply Forall_cons; split; [cbn [fmap list_fmap foldl snd]; lia|]).
  apply Forall_nil_2.
Qed.

Lemma rating_total_sum answers :
  rating_total answers
  = foldr Z.add 0 ((λ pillar, Py.int_sum (pillar_vals answers pillar.2)) <$> PILLARS).
Proof.
  unfold rating_total, PILLARS, pillar_vals, Py.int_sum.
  cbn [fmap list_fmap mjoin list_join app foldl foldr fst snd]. lia.
Qed.

Lemma tier_for_of_total total :
  0 ≤ total ≤ 50 →
  tier_for (Py.float_of_Z (2 * total)) = Py.Ok (tier_of_total total) ∧
  tier_of_total total ∈ tier_names.
Proof.
  intros Htot. unfold tier_for. rewrite round_of_Z by lia.
  cbn [mbind Py.result_bind mret Py.result_ret].
  unfold tier_of_total, TIER_BANDS, tier_names. cbn [tier_of_rounded].
  repeat match goal with
  | |- context [?a <=? ?b] => destruct (Z.leb_spec a b); try lia
  end; cbn [andb]; split; try reflexivity; repeat constructor.
Qed.

(** X4. With every rating given in [0, 5] (a missing one counts as 0)
    [compute_scores] returns, and its floats are whole numbers without
    rounding error: each pillar score is exactly ten times the sum of the
    pillar's two ratings, the overall score exactly twice the sum of the
    ten ratings, and [round] gives these integers back. *)
Theorem scores_exact_on_scale answers :
  rated_within 0 5 answers →
  ∃ ps overall,
    compute_scores answers = Py.Ok (ps, overall) ∧
    Forall2 (λ pillar p,
               Py.get1 p = Py.float_of_Z (10 * Py.int_sum (pillar_vals answers pillar.2)) ∧
               Py.round (Py.get1 p) = Py.Ok (10 * Py.int_sum (pillar_vals answers pillar.2)))
            PILLARS ps ∧
    overall = Py.float_of_Z (2 * rating_total answers) ∧
    Py.round overall = Py.Ok (2 * rating_total answers).
Proof.
  intros Hr. destruct (rated_scores_bounds answers Hr) as [_ Htot].
  pose proof (rated_vals_bounds answers Hr) as Hv.
  eexists _, _. split; [by apply compute_scores_rated|].
  split; [|split; [reflexivity|apply round_of_Z; lia]].
  apply Forall2_fmap_r, Forall_Forall2_diag.
  eapply Forall_impl; [exact Hv|]. intros pillar Hp.
  unfold rated_tuple, Py.get1. cbn [fst snd] in *.
  split; [reflexivity|]. apply round_of_Z. lia.
Qed.

Lemma scores_exact_on_scale_witness :
  ∃ ps overall,
    compute_scores example_answers = Py.Ok (ps, overall) ∧
    Forall2 (λ pillar p,
               Py.get1 p
               = Py.float_of_Z (10 * Py.int_sum (pillar_vals example_answers pillar.2)) ∧
               Py.round (Py.get1 p)
               = Py.Ok (10 * Py.int_sum (pillar_vals example_answers pillar.2)))
            PILLARS ps ∧
    overall = Py.float_of_Z (2 * rating_total example_answers) ∧
    Py.round overall = Py.Ok (2 * rating_total example_answers).
Proof.
  apply (scores_exact_on_scale example_answers).
  apply (bool_decide_unpack _). vm_compute. exact I.
Defined.

(** X5. On the scale the scores are monotone in the ratings: when a
    second answer set rates no question lower than a first one (a
    missing rating counting as 0), no pillar score and not the overall
    score is lower for the second than for the first. *)
Theorem scores_monotone a1 a2 :
  rated_within 0 5 a1 → rated_within 0 5 a2 → rated_no_lower a1 a2 →
  ∃ ps1 overall1 ps2 overall2,
    compute_scores a1 = Py.Ok (ps1, overall1) ∧
    compute_scores a2 = Py.Ok (ps2, overall2) ∧
    Forall2 (λ p1 p2, Py.float_le (Py.get1 p1) (Py.get1 p2) = true) ps1 ps2 ∧
    Py.float_le overall1 overall2 = true.
Proof.
  intros H1 H2 Hle.
  destruct (rated_scores_bounds a1 H1) as [_ Ht1].
  destruct (rated_scores_bounds a2 H2) as [_ Ht2].
  pose proof (rated_vals_bounds a1 H1) as Hv1.
  pose proof (rated_vals_bounds a2 H2) as Hv2.
  eexists _, _, _, _.
  split; [by apply compute_scores_rated|]. split; [by apply compute_scores_rated|].
  assert (Forall (λ pillar, Py.int_sum (pillar_vals a1 pillar.2)
                            ≤ Py.int_sum (pillar_vals a2 pillar.2)) PILLARS) as Hs.
  { pose proof (Hle "A1"); pose proof (Hle "A2"); pose proof (Hle "B1");
    pose proof (Hle "B2"); pose proof (Hle "C1"); pose proof (Hle "C2");
    pose proof (Hle "D1"); pose proof (Hle "D2"); pose proof (Hle "E1");
    pose proof (Hle "E2").
    unfold PILLARS, pillar_vals, Py.int_sum.
    repeat (apply Forall_cons; split; [cbn [fmap list_fmap foldl snd]; lia|]).
    apply Forall_nil_2. }
  split.
  - apply Forall2_fmap, Forall_Forall2_diag.
    rewrite Forall_forall in Hv1, Hv2, Hs. apply Forall_forall. intros pillar Hp.
    specialize (Hv1 _ Hp). specialize (Hv2 _ Hp). specialize (Hs _ Hp).
    unfold rated_tuple, Py.get1. cbn [fst snd].
    rewrite float_le_of_Z by lia. apply Z.leb_le. lia.
  - rewrite float_le_of_Z by lia. apply Z.leb_le.
    rewrite !rating_total_sum. unfold PILLARS in *.
    repeat match goal with
    | H : Forall _ (_ :: _) |- _ => apply Forall_cons in H as [? H]
    end.
    cbn [fmap list_fmap foldr snd] in *. lia.
Qed.

Lemma scores_monotone_witness :
  ∃ ps1 overall1 ps2 overall2,
    compute_scores ∅ = Py.Ok (ps1, overall1) ∧
    compute_scores example_answers = Py.Ok (ps2, overall2) ∧
    Forall2 (λ p1 p2, Py.float_le (Py.get1 p1) (Py.get1 p2) = true) ps1 ps2 ∧
    Py.float_le overall1 overall2 = true.
Proof.
  assert (rated_within 0 5 example_answers) as Hr
    by (apply (bool_decide_unpack _); vm_compute; exact I).
  apply (scores_monotone ∅ example_answers).
  - apply map_Forall_empty.
  - exact Hr.
  - intros q. unfold Py.dict_get at 1. rewrite lookup_empty.
    change (0 ≤ Py.dict_get example_answers q 0).
    apply (dict_get_within 0 5 example_answers q); [lia|exact Hr].
Defined.

(** X6. With every rating given in [0, 5] the tier follows from the sum
    of the ten ratings alone: "Emerging" up to 19, "Developing" from 20
    to 29, "Established" from 30 to 39 and "Optimized" from 40 on;
    [tier_for] raises nothing and never answers "Unknown". *)
Theorem tier_from_rating_total answers :
  rated_within 0 5 answers →
  ∃ ps overall,
    compute_scores answers = Py.Ok (ps, overall) ∧
    tier_for overall = Py.Ok (tier_of_total (rating_total answers)) ∧
    tier_of_total (rating_total answers) ∈ tier_names.
Proof.
  intros Hr. destruct (rated_scores_bounds answers Hr) as [_ Htot].
  eexists _, _. split; [by apply compute_scores_rated|].
  exact (tier_for_of_total _ Htot).
Qed.

Lemma tier_from_rating_total_witness :
  ∃ ps overall,
    compute_scores example_answers = Py.Ok (ps, overall) ∧
    tier_for overall = Py.Ok (tier_of_total (rating_total example_answers)) ∧
    tier_of_total (rating_total example_answers) ∈ tier_names.
Proof.
  apply (tier_from_rating_total example_answers).
  apply (bool_decide_unpack _). vm_compute. exact I.
Defined.

Lemma commentary_tests_table :
  Forall (λ n,
    Py.float_ge (Py.float_of_Z n) (Py.float_of_Z 80) = (80 <=? n) ∧
    Py.float_ge (Py.float_of_Z n) (Py.float_of_Z 60) = (60 <=? n) ∧
    Py.float_ge (Py.float_of_Z n) (Py.float_of_Z 40) = (40 <=? n)) (seqZ 0 101).
Proof. apply (bool_decide_unpack _). by vm_compute. Qed.

(** X7. On a whole score from 0 to 100 [pillar_commentary] picks the
    sentence that goes with the tier [tier_for] gives the same score. On
    other scores the two can part, as [tier_for] rounds and
    [pillar_commentary] does not: 79.6 is tier "Optimized" and gets the
    sentence of "Established". *)
Theorem commentary_agrees_with_tier_on_integers :
  (∀ pillar_name n tier,
     0 ≤ n ≤ 100 → tier_for (Py.float_of_Z n) = Py.Ok tier →
     pillar_commentary pillar_name (Py.float_of_Z n)
     = pillar_name +:+ commentary_of_tier tier) ∧
  tier_for (Py.decimal 796 1) = Py.Ok "Optimized" ∧
  pillar_commentary "P" (Py.decimal 796 1) = "P" +:+ commentary_solid.
Proof.
  split; [|split; vm_compute; reflexivity].
  intros pillar_name n tier Hn. unfold tier_for. rewrite round_of_Z by lia.
  cbn [mbind Py.result_bind mret Py.result_ret]. intros [= <-].
  destruct (Forall_seqZ _ _ _ n commentary_tests_table ltac:(lia)) as (H80 & H60 & H40).
  unfold pillar_commentary. rewrite H80, H60, H40.
  unfold TIER_BANDS. cbn [tier_of_rounded].
  repeat match goal with
  | |- context [?a <=? ?b] => destruct (Z.leb_spec a b); try lia
  end; reflexivity.
Qed.

Lemma commentary_agrees_with_tier_on_integers_witness :
  pillar_commentary "E. Growth Readiness" (Py.float_of_Z 80)
  = "E. Growth Readiness" +:+ commentary_of_tier "Optimized".
Proof.
  destruct commentary_agrees_with_tier_on_integers as [H _].
  apply H; [lia|vm_compute; reflexivity].
Defined.

(** ** Strengths, gaps and recommendations together *)

Lemma float_eq_join x y k :
  Py.float_eq x k = true → Py.float_eq y k = true → Py.float_eq x y = true.
Proof.
  intros Hx Hy.
  destruct (float_eq_not_nan _ _ Hx) as [Nx Nk], (float_eq_not_nan _ _ Hy) as [Ny _].
  apply float_eq_rank in Hx, Hy; [|assumption..].
  apply float_eq_rank; [assumption..|]. congruence.
Qed.

Lemma filter_tie_nil (ps : list pillar_tuple) (p : pillar_tuple) k :
  tie Py.get1 k p →
  forallb (λ q : pillar_tuple, negb (Py.float_eq (Py.get1 p) (Py.get1 q))) ps = true →
  filter (tie Py.get1 k) ps = [].
Proof.
  intros Hk. induction ps as [|q ps IH]; [done|]. cbn [forallb].
  intros [Hq Hps]%andb_true_iff. rewrite filter_cons.
  destruct (decide (tie Py.get1 k q)) as [Hkq|_]; [|by apply IH].
  unfold tie in *. rewrite (float_eq_join _ _ _ Hk Hkq) in Hq. discriminate Hq.
Qed.

Lemma distinct_scores_filter (ps : list pillar_tuple) k :
  distinct_scores ps = true → (length (filter (tie Py.get1 k) ps) ≤ 1)%nat.
Proof.
  induction ps as [|p ps IH]; [intros _; cbn; lia|].
  cbn [distinct_scores]. intros [Hp Hps]%andb_true_iff. specialize (IH Hps).
  rewrite filter_cons. destruct (decide (tie Py.get1 k p)) as [Hk|_]; [|exact IH].
  rewrite (filter_tie_nil ps p k Hk Hp). cbn. lia.
Qed.

Lemma reverse_short {A} (l : list A) : (length l ≤ 1)%nat → reverse l = l.
Proof. destruct l as [|x [|y l]]; simpl; [done|done|lia]. Qed.

Lemma sorted_reverse_distinct (ps : list pillar_tuple) :
  no_nan ps → distinct_scores ps = true →
  Py.sorted_reverse Py.get1 ps = reverse (Py.sorted Py.get1 ps).
Proof.
  intros Hnan Hd. apply (descending_unique Py.get1).
  - by rewrite sorted_reverse_perm.
  - by rewrite sorted_reverse_perm, reverse_Permutation, sorted_perm.
  - by apply sorted_reverse_desc.
  - apply StronglySorted_reverse_flip. by apply sorted_asc.
  - intros k. rewrite sorted_reverse_tie, filter_reverse, sorted_tie.
    symmetry. by apply reverse_short, distinct_scores_filter.
Qed.

(** X8. On five tuples with five different scores (none NaN) the
    recommendations are those for the gaps, worst first: the tuples
    [recommend_actions] picks are the gaps of [derive_strengths_gaps] in
    reverse order. With equal scores the two can part: when all five
    tuples score 60 the gaps are the last three pillars of the input and
    the recommendations are for the first three. *)
Theorem recommendations_address_gaps (lower : string → string) :
  (∀ ps : list pillar_tuple,
     length ps = 5%nat → no_nan ps → distinct_scores ps = true →
     ∃ lows,
       recommend_actions lower ps = action_for lower <$> lows ∧
       Py.get0 <$> lows = reverse (derive_strengths_gaps ps).2) ∧
  (derive_strengths_gaps tied_tuples).2
  = ["C. Partner Enablement & Engagement"; "D. Sales & Operations Integration";
     "E. Growth Readiness"] ∧
  recommend_actions lower tied_tuples
  = action_for lower <$> take 3 tied_tuples.
Proof.
  split; [|split; vm_compute; reflexivity].
  intros ps Hlen Hnan Hd. exists (take 3 (Py.sorted Py.get1 ps)).
  split; [reflexivity|].
  rewrite derive_strengths_gaps_split by done. cbn [snd].
  rewrite sorted_reverse_distinct by done.
  assert (length (Py.sorted Py.get1 ps) = 5%nat) as Hl
    by by rewrite (Permutation_length (sorted_perm Py.get1 ps)).
  destruct (Py.sorted Py.get1 ps) as [|a [|b [|c [|d [|e [|f l]]]]]]; try discriminate Hl.
  reflexivity.
Qed.

Lemma recommendations_address_gaps_witness :
  ∃ lows,
    recommend_actions Py.lower ranked_tuples = action_for Py.lower <$> lows ∧
    Py.get0 <$> lows = reverse (derive_strengths_gaps ranked_tuples).2.
Proof.
  destruct (recommendations_address_gaps Py.lower) as [H _].
  apply (H ranked_tuples).
  - reflexivity.
  - repeat (constructor; [vm_compute; reflexivity|]). constructor.
  - vm_compute. reflexivity.
Defined.

(** X9. The two derivations are total on lists of any length and only
    cut them: the strengths are as many as the tuples up to two, the gaps
    and the recommendations as many as the tuples up to three. So on one
    to four tuples some pillar is a strength and a gap at once, and on
    more than five some pillar is neither. *)
Theorem derivations_on_any_length (lower : string → string) (ps : list pillar_tuple) :
  length (derive_strengths_gaps ps).1 = (length ps `min` 2)%nat ∧
  length (derive_strengths_gaps ps).2 = (length ps `min` 3)%nat ∧
  length (recommend_actions lower ps) = (length ps `min` 3)%nat ∧
  ((1 ≤ length ps ≤ 4)%nat →
   ∃ name, name ∈ (derive_strengths_gaps ps).1 ∧ name ∈ (derive_strengths_gaps ps).2) ∧
  ((5 < length ps)%nat →
   (length ((derive_strengths_gaps ps).1 ++ (derive_strengths_gaps ps).2)
    < length ps)%nat).
Proof.
  assert (length (derive_strengths_gaps ps).1 = (length ps `min` 2)%nat ∧
          length (derive_strengths_gaps ps).2 = (length ps `min` 3)%nat) as [H1 H2].
  { unfold derive_strengths_gaps, Py.slice_to, Py.slice_last. cbn [fst snd].
    rewrite !length_fmap, !length_take, length_drop.
    rewrite (Permutation_length (sorted_reverse_perm Py.get1 ps)). lia. }
  split; [exact H1|]. split; [exact H2|]. split; [|split].
  - unfold recommend_actions, Py.slice_to. rewrite length_fmap, length_take.
    rewrite (Permutation_length (sorted_perm Py.get1 ps)). lia.
  - intros Hlen. unfold derive_strengths_gaps, Py.slice_to, Py.slice_last.
    cbn [fst snd].
    pose proof (Permutation_length (sorted_reverse_perm Py.get1 ps)) as Hsp.
    destruct (Py.sorted_reverse Py.get1 ps) as [|a [|b [|c [|d [|e sp]]]]];
      cbn [length] in Hsp; [lia| | | | |lia].
    + exists (Py.get0 a). split; repeat constructor.
    + exists (Py.get0 b). split; repeat constructor.
    + exists (Py.get0 b). split; repeat constructor.
    + exists (Py.get0 b). split; repeat constructor.
  - intros Hlen. rewrite length_app, H1, H2. lia.
Qed.

Lemma derivations_on_any_length_witness :
  ∃ name,
    name ∈ (derive_strengths_gaps (take 4 example_tuples)).1 ∧
    name ∈ (derive_strengths_gaps (take 4 example_tuples)).2.
Proof.
  destruct (derivations_on_any_length Py.lower (take 4 example_tuples))
    as (_ & _ & _ & H & _).
  apply H. simpl. lia.
Defined.

Lemma playbook_covers_catalog pname qids :
  (pname, qids) ∈ PILLARS → ∃ action, playbook !! pname = Some action.
Proof.
  unfold PILLARS. rewrite !elem_of_cons, elem_of_nil.
  intros [H|[H|[H|[H|[H|[]]]]]]; injection H as -> _;
    vm_compute; eexists; reflexivity.
Qed.

(** X10. The pipeline end to end: with every rating given in [0, 5],
    [compute_scores] returns and, on its tuples, [derive_strengths_gaps]
    gives two strengths and three gaps that are together the five pillar
    names of the catalog, each once, and [recommend_actions] gives three
    recommendations, each the playbook entry of a pillar of the catalog,
    never the generic fallback. *)
Theorem pipeline_partitions_catalog (lower : string → string) answers :
  rated_within 0 5 answers →
  ∃ ps overall strengths gaps,
    compute_scores answers = Py.Ok (ps, overall) ∧
    derive_strengths_gaps ps = (strengths, gaps) ∧
    strengths ++ gaps ≡ₚ fst <$> PILLARS ∧
    NoDup (strengths ++ gaps) ∧
    length strengths = 2%nat ∧ length gaps = 3%nat ∧
    length (recommend_actions lower ps) = 3%nat ∧
    Forall (λ action, ∃ pname qids,
              (pname, qids) ∈ PILLARS ∧ playbook !! pname = Some action)
           (recommend_actions lower ps).
Proof.
  intros Hr. set (ps := rated_tuple answers <$> PILLARS).
  assert (length ps = 5%nat) as Hlen by reflexivity.
  assert (Py.get0 <$> ps = fst <$> PILLARS) as Hnames by reflexivity.
  set (sp := Py.sorted_reverse Py.get1 ps).
  assert (sp ≡ₚ ps) as Hperm by apply sorted_reverse_perm.
  assert (length sp = 5%nat) as Hlen' by by rewrite (Permutation_length Hperm).
  assert ((Py.get0 <$> take 2 sp) ++ (Py.get0 <$> drop 2 sp) ≡ₚ fst <$> PILLARS) as Hp.
  { by rewrite <- fmap_app, take_drop, Hperm, Hnames. }
  exists ps, (Py.float_of_Z (2 * rating_total answers)),
    (Py.get0 <$> take 2 sp), (Py.get0 <$> drop 2 sp).
  split; [by apply compute_scores_rated|].
  split; [by apply derive_strengths_gaps_split|].
  split; [exact Hp|].
  split. { rewrite Hp. apply (bool_decide_unpack _). vm_compute. exact I. }
  split; [rewrite length_fmap, length_take; lia|].
  split; [rewrite length_fmap, length_drop; lia|].
  split.
  { unfold recommend_actions, Py.slice_to. rewrite length_fmap, length_take.
    rewrite (Permutation_length (sorted_perm Py.get1 ps)). lia. }
  unfold recommend_actions, Py.slice_to. apply Forall_fmap, Forall_forall.
  intros p Hin. apply elem_of_take in Hin as (i & Hi & _).
  apply list_elem_of_lookup_2 in Hi. rewrite sorted_perm in Hi.
  apply list_elem_of_fmap in Hi as ([pname qids] & -> & Hin).
  destruct (playbook_covers_catalog _ _ Hin) as [action Ha].
  exists pname, qids. split; [exact Hin|].
  unfold action_for, Py.dict_get, rated_tuple, Py.get0. cbn [fst snd].
  rewrite Ha. reflexivity.
Qed.

Lemma pipeline_partitions_catalog_witness :
  ∃ ps overall strengths gaps,
    compute_scores example_answers = Py.Ok (ps, overall) ∧
    derive_strengths_gaps ps = (strengths, gaps) ∧
    strengths ++ gaps ≡ₚ fst <$> PILLARS ∧
    NoDup (strengths ++ gaps) ∧
    length strengths = 2%nat ∧ length gaps = 3%nat ∧
    length (recommend_actions Py.lower ps) = 3%nat ∧
    Forall (λ action, ∃ pname qids,
              (pname, qids) ∈ PILLARS ∧ playbook !! pname = Some action)
           (recommend_actions Py.lower ps).
Proof.
  apply (pipeline_partitions_catalog Py.lower example_answers).
  apply (bool_decide_unpack _). vm_compute. exact I.
Defined.

(** ** MIME sniffing *)

Lemma startswith_prefix p b : PyBytes.startswith p b = true ↔ p `prefix_of` b.
Proof.
  revert b. induction p as [|x p IH]; intros b; simpl.
  { split; [intros _; apply prefix_nil|done]. }
  destruct b as [|y b].
  { split; [done|]. intros H. by apply prefix_nil_not in H. }
  rewrite andb_true_iff, IH. split.
  - intros [Hxy Hp]. apply Byte.byte_dec_bl in Hxy as ->. by apply prefix_cons.
  - intros H. split.
    + apply Byte.byte_dec_lb. by apply prefix_cons_inv_1 in H.
    + by apply prefix_cons_inv_2 in H.
Qed.

Lemma prefix_take_ge {A} (p b : list A) n :
  (length p ≤ n)%nat → p `prefix_of` take n b ↔ p `prefix_of` b.
Proof.
  intros Hn. split.
  - intros [k Hk]. exists (k ++ drop n b). rewrite app_assoc, <- Hk. by rewrite take_drop.
  - intros [k ->]. exists (take (n - length p) k). by rewrite take_app_ge.
Qed.

Lemma take_eq_prefix {A} (p b : list A) :
  take (length p) b = p ↔ p `prefix_of` b.
Proof.
  split.
  - intros H. exists (drop (length p) b). by rewrite <- H at 1; rewrite take_drop.
  - intros [k ->]. by rewrite take_app_length.
Qed.

Lemma contains_occurs needle b :
  PyBytes.contains needle b = true ↔ occurs_in needle b.
Proof.
  induction b as [|y b IH]; simpl.
  - rewrite orb_false_r, startswith_prefix. split.
    + intros [k Hk]. exists [], k. done.
    + intros (l1 & l2 & H). destruct l1; [by exists l2|done].
  - rewrite orb_true_iff, startswith_prefix, IH. split.
    + intros [[k Hk]|(l1 & l2 & ->)]; [by exists [], k|by exists (y :: l1), l2].
    + intros (l1 & l2 & H). destruct l1 as [|z l1].
      * left. by exists l2.
      * right. injection H as -> ->. by exists l1, l2.
Qed.

Lemma lstrip_suffix b : ∃ ws, b = ws ++ PyBytes.lstrip b.
Proof.
  induction b as [|c b [ws IH]]; [by exists []|]. simpl.
  destruct (PyBytes.is_space c); [|by exists []].
  exists (c :: ws). simpl. by rewrite <- IH.
Qed.

Lemma occurs_in_take needle b m n :
  (m ≤ n)%nat → occurs_in needle (take m b) → occurs_in needle (take n b).
Proof.
  intros Hmn (l1 & l2 & H).
  exists l1, (l2 ++ take (n - m) (drop m b)).
  replace n with (m + (n - m))%nat at 1 by lia.
  rewrite <- take_take_drop, H. by rewrite <- !app_assoc.
Qed.

Lemma has_signature_unique m1 m2 b :
  m1 ∈ binary_mimes → m2 ∈ binary_mimes →
  has_signature m1 b → has_signature m2 b → m1 = m2.
Proof.
  unfold binary_mimes. rewrite !elem_of_cons, !elem_of_nil.
  intros H1 H2.
  repeat match goal with H : _ ∨ _ |- _ => destruct H as [H|H] end;
    try contradiction; subst m1 m2; try reflexivity;
    cbv [has_signature]; simpl; intros S1 S2; exfalso;
    repeat match goal with
    | H : _ ∨ _ |- _ => destruct H as [H|H]
    | H : _ `prefix_of` _ |- _ => destruct H as [? H]
    | H : ∃ _, _ |- _ => destruct H as [? H]
    | H : _ ∧ _ |- _ => destruct H as [? H]
    end; subst; discriminate.
Qed.

Lemma riff_webp_test b :
  (12 ≤ length b)%nat →
  bool_decide (take 4 (take 16 b) = RIFF)
  && PyBytes.contains WEBP (PyBytes.slice 8 12 (take 16 b)) = true
  ↔ has_signature "image/webp" b.
Proof.
  intros Hlen. cbv [has_signature]. simpl.
  do 12 (destruct b as [|? b]; [simpl in Hlen; lia|]). clear Hlen.
  rewrite andb_true_iff, bool_decide_eq_true, contains_occurs.
  unfold PyBytes.slice. cbn [take drop Nat.sub]. split.
  - intros [Hr (l1 & l2 & Hw)]. injection Hr as -> -> -> ->.
    destruct l1 as [|? l1]; [|do 4 (destruct l1 as [|? l1]; try discriminate Hw)].
    injection Hw as -> -> -> -> _. eexists [_; _; _; _], b. split; reflexivity.
  - intros (size & rest & Hs & Hb).
    do 5 (destruct size as [|? size]; try discriminate Hs).
    injection Hb as -> -> -> -> -> -> -> -> -> -> -> -> ->.
    split; [reflexivity|]. by exists [], [].
Qed.

Lemma ico_test b :
  bool_decide (take 4 (take 16 b) = ICO_SIG) = true ↔ has_signature "image/x-icon" b.
Proof.
  cbv [has_signature]. simpl. rewrite bool_decide_eq_true, take_take.
  apply (take_eq_prefix ICO_SIG).
Qed.

Lemma startswith_head16 p b :
  (length p ≤ 16)%nat → PyBytes.startswith p (take 16 b) = true ↔ p `prefix_of` b.
Proof. intros H. by rewrite startswith_prefix, prefix_take_ge. Qed.

Lemma svg_test b :
  PyBytes.startswith SVG_TAG (PyBytes.lstrip (take 32 b))
  || PyBytes.contains SVG_TAG (take 200 b) = true
  ↔ occurs_in SVG_TAG (take 200 b).
Proof.
  rewrite orb_true_iff, contains_occurs, startswith_prefix. split; [|by right].
  intros [[k Hk]|H]; [|done].
  apply (occurs_in_take _ _ 32); [lia|].
  destruct (lstrip_suffix (take 32 b)) as [ws Hws].
  exists ws, k. by rewrite Hws at 1; rewrite Hk.
Qed.

Lemma false_iff_not (P : Prop) : (false = true ↔ P) → ¬ P.
Proof. intros H HP. apply H in HP. discriminate. Qed.

(** What [_detect_mime_from_bytes] returns on at least 12 bytes. *)
Lemma detect_mime_spec b :
  (12 ≤ length b)%nat →
  match _detect_mime_from_bytes b with
  | Some mime =>
      (mime ∈ binary_mimes ∧ has_signature mime b) ∨
      (mime = "image/svg+xml" ∧
       (∀ m, m ∈ binary_mimes → ¬ has_signature m b) ∧
       occurs_in SVG_TAG (take 200 b))
  | None =>
      (∀ m, m ∈ binary_mimes → ¬ has_signature m b) ∧
      ¬ occurs_in SVG_TAG (take 200 b)
  end.
Proof.
  intros Hlen.
  pose proof (startswith_head16 PNG_SIG b ltac:(simpl; lia)) as Epng.
  pose proof (startswith_head16 JPEG_SIG b ltac:(simpl; lia)) as Ejpeg.
  pose proof (riff_webp_test b Hlen) as Ewebp.
  pose proof (startswith_head16 GIF87a b ltac:(simpl; lia)) as Egif87.
  pose proof (startswith_head16 GIF89a b ltac:(simpl; lia)) as Egif89.
  pose proof (startswith_head16 BM b ltac:(simpl; lia)) as Ebm.
  pose proof (ico_test b) as Eico.
  pose proof (startswith_head16 TIFF_II b ltac:(simpl; lia)) as Eii.
  pose proof (startswith_head16 TIFF_MM b ltac:(simpl; lia)) as Emm.
  pose proof (svg_test b) as Esvg.
  unfold _detect_mime_from_bytes.
  replace (bool_decide (b = []) || (length b <? 12)%nat) with false; cycle 1.
  { symmetry. apply orb_false_iff. split.
    - apply bool_decide_eq_false. intros ->. simpl in Hlen. lia.
    - apply Nat.ltb_ge. lia. }
  cbv zeta.
  assert (∀ m, m ∈ binary_mimes → has_signature m b →
    PNG_SIG `prefix_of` b ∨ JPEG_SIG `prefix_of` b ∨ has_signature "image/webp" b ∨
    (GIF87a `prefix_of` b ∨ GIF89a `prefix_of` b) ∨ BM `prefix_of` b ∨
    has_signature "image/x-icon" b ∨ (TIFF_II `prefix_of` b ∨ TIFF_MM `prefix_of` b))
    as Hany.
  { intros m. unfold binary_mimes. rewrite !elem_of_cons, elem_of_nil.
    intros [->|[->|[->|[->|[->|[->|[->|[]]]]]]]] Hs; cbv [has_signature] in Hs;
      simpl in Hs; tauto. }
  destruct (PyBytes.startswith PNG_SIG (take 16 b)) eqn:T1.
  { left. split; [repeat constructor|]. by apply Epng. }
  destruct (PyBytes.startswith JPEG_SIG (take 16 b)) eqn:T2.
  { left. split; [repeat constructor|]. by apply Ejpeg. }
  destruct (bool_decide (take 4 (take 16 b) = RIFF) && _) eqn:T3.
  { left. split; [repeat constructor|]. by apply Ewebp. }
  destruct (PyBytes.startswith GIF87a (take 16 b)) eqn:T4.
  { left. split; [repeat constructor|]. left. by apply Egif87. }
  destruct (PyBytes.startswith GIF89a (take 16 b)) eqn:T5.
  { left. split; [repeat constructor|]. right. by apply Egif89. }
  cbn [orb].
  destruct (PyBytes.startswith BM (take 16 b)) eqn:T6.
  { left. split; [repeat constructor|]. by apply Ebm. }
  destruct (bool_decide (take 4 (take 16 b) = ICO_SIG)) eqn:T7.
  { left. split; [repeat constructor|]. by apply Eico. }
  destruct (PyBytes.startswith TIFF_II (take 16 b)) eqn:T8.
  { left. split; [repeat constructor|]. left. by apply Eii. }
  destruct (PyBytes.startswith TIFF_MM (take 16 b)) eqn:T9.
  { left. split; [repeat constructor|]. right. by apply Emm. }
  cbn [orb].
  apply false_iff_not in Epng, Ejpeg, Ewebp, Egif87, Egif89, Ebm, Eico, Eii, Emm.
  assert (∀ m, m ∈ binary_mimes → ¬ has_signature m b) as Hnone.
  { intros m Hm Hs. specialize (Hany m Hm Hs). tauto. }
  destruct (PyBytes.startswith SVG_TAG _ || _) eqn:T10.
  - right. split; [reflexivity|]. split; [exact Hnone|]. by apply Esvg.
  - split; [exact Hnone|]. by apply false_iff_not.
Qed.

Lemma detect_mime_short b :
  (length b < 12)%nat → _detect_mime_from_bytes b = None.
Proof.
  intros H. unfold _detect_mime_from_bytes.
  replace (length b <? 12)%nat with true by (symmetry; by apply Nat.ltb_lt).
  by rewrite orb_true_r.
Qed.

Lemma svg_not_binary : "image/svg+xml" ∉ binary_mimes.
Proof. apply (bool_decide_unpack _). vm_compute. exact I. Qed.

(** X11. [_detect_mime_from_bytes] answers one of the seven binary
    image types exactly when the input has at least 12 bytes and carries
    the signature of that type: the magic bytes at the start, for WebP
    "RIFF", four bytes of size and "WEBP". No input carries the
    signatures of two types, so the order of the tests does not matter. *)
Theorem detect_mime_binary_signature (b : list Byte.byte) (mime : string) :
  mime ∈ binary_mimes →
  _detect_mime_from_bytes b = Some mime ↔ (12 ≤ length b)%nat ∧ has_signature mime b.
Proof.
  intros Hm. destruct (decide (12 ≤ length b)%nat) as [Hlen|Hlen].
  - pose proof (detect_mime_spec b Hlen) as Hspec.
    destruct (_detect_mime_from_bytes b) as [m|].
    + destruct Hspec as [[Hin Hs]|(-> & Hnone & _)].
      * split.
        -- intros [= ->]. by split.
        -- intros [_ Hs']. f_equal. by eapply has_signature_unique.
      * split.
        -- intros [= <-]. by destruct (svg_not_binary).
        -- intros [_ Hs]. by destruct (Hnone mime Hm).
    + destruct Hspec as [Hnone _]. split; [done|].
      intros [_ Hs]. by destruct (Hnone mime Hm).
  - rewrite detect_mime_short by lia. split; [done|]. intros [? _]. lia.
Qed.

Lemma detect_mime_binary_signature_witness :
  _detect_mime_from_bytes png_bytes = Some "image/png".
Proof.
  apply (detect_mime_binary_signature png_bytes "image/png").
  - repeat constructor.
  - split; [simpl; lia|]. cbv [has_signature]. simpl.
    exists [Byte.x00; Byte.x00; Byte.x00; Byte.x0d]. reflexivity.
Defined.

(** X12. Short of a binary signature, [_detect_mime_from_bytes] answers
    "image/svg+xml" exactly when the input has at least 12 bytes and
    "<svg" occurs within its first 200 bytes, and nothing exactly when
    the input is shorter than 12 bytes or has neither a signature nor
    "<svg" there. The test on the stripped first 32 bytes adds nothing
    to the search of the first 200. *)
Theorem detect_mime_svg_or_nothing (b : list Byte.byte) :
  (_detect_mime_from_bytes b = Some "image/svg+xml" ↔
   (12 ≤ length b)%nat ∧ (∀ m, m ∈ binary_mimes → ¬ has_signature m b) ∧
   occurs_in SVG_TAG (take 200 b)) ∧
  (_detect_mime_from_bytes b = None ↔
   (length b < 12)%nat ∨
   ((∀ m, m ∈ binary_mimes → ¬ has_signature m b) ∧
    ¬ occurs_in SVG_TAG (take 200 b))).
Proof.
  destruct (decide (12 ≤ length b)%nat) as [Hlen|Hlen].
  - pose proof (detect_mime_spec b Hlen) as Hspec.
    destruct (_detect_mime_from_bytes b) as [m|].
    + destruct Hspec as [[Hin Hs]|(-> & Hnone & Hocc)].
      * split; split.
        -- intros [= ->]. by destruct svg_not_binary.
        -- intros (_ & Hnone & _). by destruct (Hnone m Hin).
        -- done.
        -- intros [?|[Hnone _]]; [lia|]. by destruct (Hnone m Hin).
      * split; split; try done. intros [?|[_ Hno]]; [lia|done].
    + destruct Hspec as [Hnone Hno]. split; split; try done.
      * intros (_ & _ & Hocc). done.
      * intros _. by right.
  - rewrite detect_mime_short by lia. split; split; try done.
    + intros (? & _). lia.
    + intros _. left. lia.
Qed.

Lemma detect_mime_svg_or_nothing_witness :
  (12 ≤ length svg_bytes)%nat ∧
  (∀ m, m ∈ binary_mimes → ¬ has_signature m svg_bytes) ∧
  occurs_in SVG_TAG (take 200 svg_bytes).
Proof.
  destruct (detect_mime_svg_or_nothing svg_bytes) as [[H _] _].
  apply H. vm_compute. reflexivity.
Defined.

(** X13. [_detect_mime_from_bytes] reads no byte beyond the first 200:
    it answers on the first 200 bytes of an input what it answers on the
    whole input. *)
Theorem detect_mime_first_200_bytes (b : list Byte.byte) :
  _detect_mime_from_bytes (take 200 b) = _detect_mime_from_bytes b.
Proof.
  destruct (decide (200 ≤ length b)%nat) as [Hlen|Hlen]; [|by rewrite take_ge by lia].
  unfold _detect_mime_from_bytes.
  rewrite !take_take, length_take.
  replace (bool_decide (take 200 b = [])) with (bool_decide (b = [])).
  - replace (200 `min` length b)%nat with 200%nat by lia.
    replace (length b <? 12)%nat with false by (symmetry; apply Nat.ltb_ge; lia).
    reflexivity.
  - destruct b; [done|]. reflexivity.
Qed.

(** ** Query parameters, prefill and the form *)

(** X14. [get_query_param] never raises: it returns the first value of
    the parameter, and the default when the parameter is missing or has
    an empty list of values. *)
Theorem get_query_param_first_or_default (qp : gmap string (list string))
    (key default : string) :
  get_query_param qp key default
  = Some (match qp !! key with
          | Some (v :: _) => v
          | _ => default
          end).
Proof.
  unfold get_query_param, Py.dict_get.
  destruct (qp !! key) as [[|v vs]|]; reflexivity.
Qed.

Section prefill_facts.
Variable int_of_str : string → option Z.
Variable qp : gmap string (list string).

Lemma prefill_step_lookup out qid q :
  prefill_step int_of_str qp out qid !! q
  = if decide (q = qid)
    then match query_rating int_of_str qp qid with
         | Some v => Some v
         | None => out !! q
         end
    else out !! q.
Proof.
  unfold prefill_step, query_rating.
  destruct (get_query_param qp (Py.lower qid) "" ≫= int_of_str) as [val|]; cbn;
    [destruct ((1 <=? val) && (val <=? 5))|]; destruct (decide (q = qid)) as [->|Hne];
    try reflexivity.
  - apply lookup_insert_eq.
  - by apply lookup_insert_ne.
Qed.

Lemma prefill_fold_lookup keys out q :
  foldl (prefill_step int_of_str qp) out keys !! q
  = if decide (q ∈ keys)
    then match query_rating int_of_str qp q with
         | Some v => Some v
         | None => out !! q
         end
    else out !! q.
Proof.
  revert out. induction keys as [|k keys IH]; intros out.
  { cbn. destruct (decide (q ∈ [])) as [H|_]; [by apply elem_of_nil in H|done]. }
  cbn [foldl]. rewrite IH, prefill_step_lookup.
  destruct (decide (q = k)) as [->|Hne].
  - rewrite (decide_True (P := k ∈ k :: keys)) by by left.
    destruct (decide (k ∈ keys)); by destruct (query_rating int_of_str qp k).
  - destruct (decide (q ∈ keys)) as [Hin|Hnin].
    + by rewrite (decide_True (P := q ∈ k :: keys)) by by right.
    + rewrite (decide_False (P := q ∈ k :: keys)); [done|].
      intros [?|?]%elem_of_cons; done.
Qed.
End prefill_facts.

Lemma query_rating_range int_of_str qp qid v :
  query_rating int_of_str qp qid = Some v → 1 ≤ v ≤ 5.
Proof.
  unfold query_rating.
  destruct (_ ≫= int_of_str) as [val|]; cbn; [|done].
  destruct (Z.leb_spec 1 val), (Z.leb_spec val 5); cbn; intros [= <-]; lia.
Qed.

Lemma prefill_lookup int_of_str qp qid v :
  prefill_answers_from_query int_of_str qp !! qid = Some v ↔
  qid ∈ fst <$> QUESTIONS ∧ query_rating int_of_str qp qid = Some v.
Proof.
  unfold prefill_answers_from_query.
  rewrite prefill_fold_lookup, lookup_empty.
  destruct (decide (qid ∈ QUESTIONS.*1)) as [Hin|Hnin].
  - destruct (query_rating int_of_str qp qid); split; try done; by intros [_ ?].
  - split; [done|]. by intros [? _].
Qed.

Lemma prefill_default_range int_of_str qp qid :
  1 ≤ Py.dict_get (prefill_answers_from_query int_of_str qp) qid 3 ≤ 5.
Proof.
  unfold Py.dict_get.
  destruct (prefill_answers_from_query int_of_str qp !! qid) as [v|] eqn:Hv;
    cbn; [|lia].
  apply prefill_lookup in Hv as [_ Hv]. by eapply query_rating_range.
Qed.

Lemma query_rating_missing int_of_str qp qid :
  int_of_str "" = None →
  qp !! Py.lower qid = None ∨ qp !! Py.lower qid = Some [] →
  query_rating int_of_str qp qid = None.
Proof.
  intros Hint Hmiss. unfold query_rating.
  assert (get_query_param qp (Py.lower qid) "" = Some "") as ->.
  { unfold get_query_param, Py.dict_get. by destruct Hmiss as [-> | ->]. }
  cbn [mbind option_bind]. by rewrite Hint.
Qed.

(** X15. [prefill_answers_from_query] keeps exactly the valid ratings of
    the query: a question is prefilled with [v] exactly when it is one of
    the ten questions and the query parameter of its lower-case
    identifier parses to the integer [v] with [1 <= v <= 5]; a parameter
    that does not parse or is out of range leaves no entry and raises
    nothing. So every prefilled rating lies in [1, 5], and the default
    the form shows a slider with, the prefilled rating or else 3, always
    does. As [int] raises on the empty string, a parameter that is
    missing or has no value leaves no entry either: without a query
    nothing is prefilled. *)
Theorem prefill_keeps_valid_ratings (int_of_str : string → option Z)
    (qp : gmap string (list string)) :
  let prefilled := prefill_answers_from_query int_of_str qp in
  (∀ qid v, prefilled !! qid = Some v ↔
            qid ∈ fst <$> QUESTIONS ∧ query_rating int_of_str qp qid = Some v) ∧
  rated_within 1 5 prefilled ∧
  (∀ qid, 1 ≤ Py.dict_get prefilled qid 3 ≤ 5) ∧
  (int_of_str "" = None →
   (∀ qid, qp !! Py.lower qid = None ∨ qp !! Py.lower qid = Some [] →
           prefilled !! qid = None) ∧
   prefill_answers_from_query int_of_str ∅ = ∅).
Proof.
  intros prefilled. split; [intros qid v; apply prefill_lookup|]. split; [|split].
  - intros qid v Hv. apply prefill_lookup in Hv as [_ Hv].
    by eapply query_rating_range.
  - intros qid. apply prefill_default_range.
  - intros Hint.
    assert (∀ qp' qid, qp' !! Py.lower qid = None ∨ qp' !! Py.lower qid = Some [] →
              prefill_answers_from_query int_of_str qp' !! qid = None) as Hmiss.
    { intros qp' qid Hq.
      destruct (prefill_answers_from_query int_of_str qp' !! qid) as [v|] eqn:Hv;
        [|reflexivity].
      apply prefill_lookup in Hv as [_ Hv].
      by rewrite (query_rating_missing _ _ _ Hint Hq) in Hv. }
    split; [intros qid; apply Hmiss|].
    apply map_eq. intros qid. rewrite lookup_empty. apply Hmiss. left.
    apply lookup_empty.
Qed.

Lemma prefill_keeps_valid_ratings_witness :
  prefill_answers_from_query int_of_digit example_query !! "A1" = Some 4 ∧
  prefill_answers_from_query int_of_digit example_query !! "B2" = None ∧
  prefill_answers_from_query int_of_digit example_query !! "D1" = None ∧
  prefill_answers_from_query int_of_digit ∅ = ∅.
Proof.
  destruct (prefill_keeps_valid_ratings int_of_digit example_query)
    as (H & _ & _ & Hmiss).
  destruct Hmiss as [Hmiss Hempty]; [reflexivity|].
  split; [|split; [|split]].
  - apply H. split; [|vm_compute; reflexivity].
    apply (bool_decide_unpack _). vm_compute. exact I.
  - destruct (prefill_answers_from_query int_of_digit example_query !! "B2") as [v|] eqn:E;
      [|reflexivity].
    apply H in E as [_ E]. vm_compute in E. discriminate E.
  - apply Hmiss. left. vm_compute. reflexivity.
  - exact Hempty.
Defined.

Lemma form_fold_lookup slider questions answers q :
  NoDup (fst <$> questions) →
  foldl (form_step slider) answers questions !! q
  = if decide (q ∈ fst <$> questions)
    then Some (slider q (Py.dict_get answers q 3))
    else answers !! q.
Proof.
  revert answers. induction questions as [|[qid text] questions IH]; intros answers Hnd.
  { cbn. destruct (decide (q ∈ [])) as [H|_]; [by apply elem_of_nil in H|done]. }
  cbn [fmap list_fmap fst] in Hnd. apply NoDup_cons in Hnd as [Hnin Hnd].
  cbn [foldl]. rewrite IH by done. unfold form_step.
  destruct (decide (q ∈ questions.*1)) as [Hin|Hq].
  - rewrite (decide_True (P := q ∈ ((qid, text) :: questions).*1)) by by right.
    assert (qid ≠ q) as Hne by (intros ->; contradiction).
    unfold Py.dict_get. by rewrite lookup_insert_ne.
  - destruct (decide (q = qid)) as [->|Hne].
    + rewrite (decide_True (P := qid ∈ ((qid, text) :: questions).*1)) by by left.
      apply lookup_insert_eq.
    + rewrite (decide_False (P := q ∈ ((qid, text) :: questions).*1)).
      * by apply lookup_insert_ne.
      * intros [?|?]%elem_of_cons; done.
Qed.

Lemma questions_nodup : NoDup (fst <$> QUESTIONS).
Proof. apply (bool_decide_unpack _). vm_compute. exact I. Qed.

(** X16. What the form submits is a valid answer set, whatever the
    query: given that each slider returns a rating in [1, 5] when shown
    with a default in [1, 5], the answers after the form loop rate
    exactly the ten questions, each with what its slider returned on the
    prefilled rating or else 3, every rating in [1, 5]; on these answers
    [compute_scores] returns an overall score between 20 and 100 and
    [tier_for] one of the four tiers. *)
Theorem form_submission_is_valid (int_of_str : string → option Z)
    (slider : string → Z → Z) (qp : gmap string (list string)) :
  (∀ qid default, 1 ≤ default ≤ 5 → 1 ≤ slider qid default ≤ 5) →
  let prefilled := prefill_answers_from_query int_of_str qp in
  let answers := form_answers slider prefilled in
  (∀ qid, qid ∈ fst <$> QUESTIONS →
          answers !! qid = Some (slider qid (Py.dict_get prefilled qid 3))) ∧
  dom answers = list_to_set (fst <$> QUESTIONS) ∧
  rated_within 1 5 answers ∧
  ∃ ps overall tier,
    compute_scores answers = Py.Ok (ps, overall) ∧
    Py.float_le (Py.float_of_Z 20) overall = true ∧
    Py.float_le overall (Py.float_of_Z 100) = true ∧
    tier_for overall = Py.Ok tier ∧ tier ∈ tier_names.
Proof.
  intros Hslider prefilled answers.
  assert (∀ q, answers !! q
               = if decide (q ∈ fst <$> QUESTIONS)
                 then Some (slider q (Py.dict_get prefilled q 3))
                 else None) as Hlook.
  { intros q. unfold answers, form_answers.
    rewrite form_fold_lookup by apply questions_nodup.
    destruct (decide (q ∈ QUESTIONS.*1)) as [|Hnin]; [done|].
    destruct (prefilled !! q) as [v|] eqn:E; [|done].
    apply prefill_lookup in E as [? _]. contradiction. }
  assert (rated_within 1 5 answers) as Hr.
  { intros q v. rewrite Hlook. destruct (decide _); [|done].
    intros [= <-]. apply Hslider, prefill_default_range. }
  split. { intros qid Hin. rewrite Hlook. by rewrite decide_True. }
  split.
  { apply set_eq. intros q. rewrite elem_of_dom, Hlook, elem_of_list_to_set.
    destruct (decide _); [by split; eauto|]. split; [by intros [? ?]|done]. }
  split; [exact Hr|].
  assert (rated_within 0 5 answers) as Hr0.
  { eapply map_Forall_impl; [exact Hr|]. intros q v Hv. simpl in *. lia. }
  assert (∀ q, q ∈ fst <$> QUESTIONS → 1 ≤ Py.dict_get answers q 0 ≤ 5) as Hq.
  { intros q Hin. unfold Py.dict_get. rewrite Hlook, decide_True by done. cbn.
    apply Hslider, prefill_default_range. }
  assert (10 ≤ rating_total answers ≤ 50) as Htot.
  { unfold rating_total, PILLARS, pillar_vals, Py.int_sum.
    cbn [fmap list_fmap mjoin list_join app foldl fst snd].
    pose proof (Hq "A1" ltac:(repeat constructor)).
    pose proof (Hq "A2" ltac:(repeat constructor)).
    pose proof (Hq "B1" ltac:(repeat constructor)).
    pose proof (Hq "B2" ltac:(repeat constructor)).
    pose proof (Hq "C1" ltac:(repeat constructor)).
    pose proof (Hq "C2" ltac:(repeat constructor)).
    pose proof (Hq "D1" ltac:(repeat constructor)).
    pose proof (Hq "D2" ltac:(repeat constructor)).
    pose proof (Hq "E1" ltac:(repeat constructor)).
    pose proof (Hq "E2" ltac:(repeat constructor)). lia. }
  destruct (tier_for_of_total (rating_total answers) ltac:(lia)) as [Ht Hn].
  eexists _, _, _. split; [by apply compute_scores_rated|].
  split; [rewrite float_le_of_Z by lia; apply Z.leb_le; lia|].
  split; [rewrite float_le_of_Z by lia; apply Z.leb_le; lia|].
  split; [exact Ht|exact Hn].
Qed.

Lemma form_submission_is_valid_witness :
  let answers :=
    form_answers (λ _ default, default)
                 (prefill_answers_from_query int_of_digit example_query) in
  dom answers = list_to_set (fst <$> QUESTIONS) ∧ rated_within 1 5 answers.
Proof.
  destruct (form_submission_is_valid int_of_digit (λ _ default, default) example_query)
    as (_ & Hdom & Hr & _); [intros _ d Hd; exact Hd|].
  split; assumption.
Defined.

(** ** The leads store *)

Lemma same_but_status_refl row : same_but_status row row.
Proof. by intros k _. Qed.

Lemma same_but_status_trans r1 r2 r3 :
  same_but_status r1 r2 → same_but_status r2 r3 → same_but_status r1 r3.
Proof. intros H12 H23 k Hk. by rewrite H23, H12. Qed.

Lemma same_but_status_set row v : same_but_status row (<["status" := v]> row).
Proof. intros k Hk. by rewrite lookup_insert_ne. Qed.

Lemma item_in_range {A} (l : list A) (i : Z) :
  - Z.of_nat (length l) ≤ i < Z.of_nat (length l) →
  PyBytes.item l i = l !! Z.to_nat (i `mod` Z.of_nat (length l)).
Proof.
  intros Hi. unfold PyBytes.item. cbn zeta.
  destruct (Z.leb_spec 0 i); cbn [andb].
  - destruct (Z.ltb_spec i (Z.of_nat (length l))); [|lia].
    by rewrite Z.mod_small by lia.
  - destruct (Z.leb_spec (- Z.of_nat (length l)) i); [|lia].
    destruct (Z.ltb_spec i 0); [|lia]. cbn [andb].
    replace (i `mod` Z.of_nat (length l)) with (Z.of_nat (length l) + i); [done|].
    apply Z.mod_unique with (q := -1); lia.
Qed.

Lemma item_out_of_range {A} (l : list A) (i : Z) :
  i < - Z.of_nat (length l) → PyBytes.item l i = None.
Proof.
  intros Hi. unfold PyBytes.item. cbn zeta.
  destruct (Z.leb_spec 0 i); [lia|]. cbn [andb].
  by destruct (Z.leb_spec (- Z.of_nat (length l)) i); [lia|].
Qed.

Lemma alter_with_status new_status st row r :
  alter (<["status" := VStr new_status]>) row (lead_fields st) r
  = with_status new_status st row r.
Proof.
  unfold with_status. destruct (decide (r = row)) as [->|Hne].
  - apply fn_lookup_alter.
  - by apply fn_lookup_alter_ne.
Qed.

Lemma with_status_same_but_status new_status st row r :
  same_but_status (lead_fields st r) (with_status new_status st row r).
Proof.
  unfold with_status. destruct (decide (r = row));
    [apply same_but_status_set|apply same_but_status_refl].
Qed.

Lemma with_status_nodup new_status st row db i :
  NoDup db → db !! i = Some row →
  with_status new_status st row <$> db
  = <[i := <["status" := VStr new_status]> (lead_fields st row)]> (lead_fields st <$> db).
Proof.
  intros Hnd Hi. apply list_eq. intros j. rewrite list_lookup_fmap.
  destruct (decide (i = j)) as [<-|Hne].
  - rewrite list_lookup_insert_eq by (rewrite length_fmap; by eapply lookup_lt_Some).
    rewrite Hi. cbn. unfold with_status. by rewrite decide_True.
  - rewrite list_lookup_insert_ne by done. rewrite list_lookup_fmap.
    destruct (db !! j) as [r|] eqn:Hj; [|done]. cbn. f_equal.
    unfold with_status. rewrite decide_False; [done|]. intros ->.
    apply Hne. by eapply NoDup_lookup.
Qed.

(** What a call of [update_lead_status] within the list does. *)
Lemma update_lead_status_in_range index new_status st db :
  leads_db st = Some db →
  - Z.of_nat (length db) ≤ index < Z.of_nat (length db) →
  ∃ row, db !! Z.to_nat (index `mod` Z.of_nat (length db)) = Some row ∧
         update_lead_status index new_status st
         = Some (Session (alter (<["status" := VStr new_status]>) row (lead_fields st))
                         (Some db)).
Proof.
  intros Hdb Hi. unfold update_lead_status. rewrite Hdb.
  destruct (Z.ltb_spec index (Z.of_nat (length db))); [|lia].
  rewrite item_in_range by lia.
  assert (0 < Z.of_nat (length db)) as Hn by lia.
  pose proof (Z.mod_pos_bound index _ Hn) as Hm.
  destruct (lookup_lt_is_Some_2 db (Z.to_nat (index `mod` Z.of_nat (length db)))
              ltac:(lia)) as [row Hrow].
  exists row. by rewrite Hrow.
Qed.

(** What any call of [update_lead_status] that returns keeps. *)
Lemma update_lead_status_keeps index new_status st st' :
  update_lead_status index new_status st = Some st' →
  lead_refs st' = lead_refs st ∧
  ∀ r, same_but_status (lead_fields st r) (lead_fields st' r).
Proof.
  unfold update_lead_status, lead_refs.
  destruct (leads_db st) as [db|] eqn:Hdb.
  - destruct (Z.ltb_spec index (Z.of_nat (length db))).
    + destruct (PyBytes.item db index) as [row|]; cbn; [|done]. intros [= <-]. cbn.
      split; [done|]. intros r. rewrite alter_with_status.
      apply with_status_same_but_status.
    + intros [= <-]. rewrite Hdb. split; [done|]. intros; apply same_but_status_refl.
  - intros [= <-]. rewrite Hdb. split; [done|]. intros; apply same_but_status_refl.
Qed.

(** X17. Which lead [update_lead_status] touches. Without a list of
    leads in the session, or with an index at or past its end, nothing
    changes. With [-n <= index < n] on [n] leads the object at position
    [index mod n] gets the new status, so a negative index counts from
    the end; the list and the fields of every other object stay, and
    every position that holds this same object reads the new status.
    When no object stands twice in the list, the one position is all that
    changes. It raises (IndexError) exactly when there is a list and
    [index < -n]. *)
Theorem update_lead_status_index_rule (index : Z) (new_status : string)
    (st : session) :
  let db := lead_refs st in
  let n := Z.of_nat (length db) in
  (leads_db st = None ∨ n ≤ index → update_lead_status index new_status st = Some st) ∧
  (leads_db st ≠ None → - n ≤ index < n →
   ∃ row st',
     db !! Z.to_nat (index `mod` n) = Some row ∧
     update_lead_status index new_status st = Some st' ∧
     leads_db st' = leads_db st ∧
     (∀ r, lead_fields st' r = with_status new_status st row r) ∧
     leads_of st' = with_status new_status st row <$> db ∧
     (NoDup db →
      leads_of st'
      = <[Z.to_nat (index `mod` n) :=
            <["status" := VStr new_status]> (lead_fields st row)]> (leads_of st))) ∧
  (update_lead_status index new_status st = None ↔ leads_db st ≠ None ∧ index < - n).
Proof.
  cbv zeta. unfold lead_refs. split; [|split].
  - unfold update_lead_status. destruct (leads_db st) as [l|]; [|done].
    intros [?|Hi]; [done|]. change (Z.of_nat (length l) ≤ index) in Hi.
    by destruct (Z.ltb_spec index (Z.of_nat (length l))); [lia|].
  - destruct (leads_db st) as [l|] eqn:Hdb; [|done]. intros _ Hi.
    change (- Z.of_nat (length l) ≤ index < Z.of_nat (length l)) in Hi.
    change (default [] (Some l)) with l.
    destruct (update_lead_status_in_range index new_status st l Hdb Hi)
      as (row & Hrow & Hup).
    eexists row, _. split; [exact Hrow|]. split; [exact Hup|].
    split; [reflexivity|]. split; [intros r; apply alter_with_status|].
    assert (leads_of (Session (alter (<["status" := VStr new_status]>) row (lead_fields st))
                              (Some l))
            = with_status new_status st row <$> l) as Hview.
    { unfold leads_of, lead_refs. cbn. apply list_fmap_ext. intros _ r _.
      apply alter_with_status. }
    split; [exact Hview|]. intros Hnd. rewrite Hview.
    unfold leads_of, lead_refs. rewrite Hdb. cbn. by apply with_status_nodup.
  - unfold update_lead_status. destruct (leads_db st) as [l|].
    + change (default [] (Some l)) with l. destruct (Z.ltb_spec index (Z.of_nat (length l))) as [Hlt|Hge].
      * destruct (decide (index < - Z.of_nat (length l))) as [Hlow|Hin].
        -- rewrite item_out_of_range by done. cbn. by split.
        -- rewrite item_in_range by lia.
           assert (0 < Z.of_nat (length l)) as Hn by lia.
           pose proof (Z.mod_pos_bound index _ Hn) as Hm.
           destruct (lookup_lt_is_Some_2 l (Z.to_nat (index `mod` Z.of_nat (length l)))
                       ltac:(lia)) as [row ->].
           cbn. split; [done|]. intros [_ ?]. lia.
      * split; [done|]. intros [_ ?]. lia.
    + split; [done|]. by intros [? _].
Qed.

Lemma update_lead_status_index_rule_witness :
  leads_of <$> update_lead_status (-1) "Report Sent" shared_session
  = Some [<["status" := VStr "Report Sent"]> lead_acme; lead_bolt;
          <["status" := VStr "Report Sent"]> lead_acme] ∧
  leads_of <$> update_lead_status 1 "Report Sent" (persist_lead (inl "leads.csv") 2%positive
                 (persist_lead (inl "leads.csv") 1%positive example_session).1).1
  = Some [lead_acme; <["status" := VStr "Report Sent"]> lead_bolt] ∧
  update_lead_status 3 "Report Sent" shared_session = Some shared_session ∧
  update_lead_status (-4) "Report Sent" shared_session = None.
Proof.
  destruct (update_lead_status_index_rule (-1) "Report Sent" shared_session)
    as (_ & H1 & _).
  destruct (update_lead_status_index_rule 1 "Report Sent"
              (persist_lead (inl "leads.csv") 2%positive
                 (persist_lead (inl "leads.csv") 1%positive example_session).1).1)
    as (_ & H2 & _).
  destruct (update_lead_status_index_rule 3 "Report Sent" shared_session)
    as (H3 & _ & _).
  destruct (update_lead_status_index_rule (-4) "Report Sent" shared_session)
    as (_ & _ & H4).
  split; [|split; [|split]].
  - destruct H1 as (row & st' & Hrow & -> & _ & _ & Hview & _);
      [discriminate|simpl; lia|].
    cbn in Hrow. injection Hrow as <-. cbn [fmap option_fmap option_map].
    rewrite Hview. reflexivity.
  - destruct H2 as (row & st' & Hrow & -> & _ & _ & _ & Hview);
      [discriminate|simpl; lia|].
    cbn in Hrow. injection Hrow as <-. cbn [fmap option_fmap option_map].
    rewrite Hview; [reflexivity|].
    apply (bool_decide_unpack _). vm_compute. exact I.
  - apply H3. right. simpl. lia.
  - apply H4. split; [discriminate|simpl; lia].
Defined.

(** X18. Leads are only added, never removed or reordered, and the
    status is the only field that changes afterwards: after any sequence
    of [persist_lead] and [update_lead_status] calls that raises nothing,
    the list holds the objects it began with followed by the persisted
    ones in the order of the calls, every object agrees with what it was
    on every field but the status, and so the leads read as the leads at
    the start followed by the persisted ones, up to the status. *)
Theorem leads_keep_all_but_status (st st' : session) (cs : list store_call) :
  store_run st cs = Some st' →
  lead_refs st' = lead_refs st ++ persisted cs ∧
  (∀ r, same_but_status (lead_fields st r) (lead_fields st' r)) ∧
  Forall2 same_but_status (leads_of st ++ (lead_fields st <$> persisted cs))
          (leads_of st').
Proof.
  intros Hrun.
  assert (lead_refs st' = lead_refs st ++ persisted cs ∧
          ∀ r, same_but_status (lead_fields st r) (lead_fields st' r)) as [Hrefs Hfields].
  { revert st Hrun. induction cs as [|c cs IH]; intros st.
    { cbn. intros [= <-]. rewrite app_nil_r. split; [done|].
      intros; apply same_but_status_refl. }
    cbn [store_run]. destruct (store_step st c) as [st1|] eqn:E; [|done].
    cbn [mbind option_bind]. intros Hrun. destruct (IH _ Hrun) as [Hrefs Hfields].
    destruct c as [csv row|index new_status].
    - cbn in E. injection E as <-. split.
      + rewrite Hrefs. unfold lead_refs. cbn. by rewrite <- app_assoc.
      + exact Hfields.
    - cbn in E. apply update_lead_status_keeps in E as [Hl Hf]. split.
      + rewrite Hrefs, Hl. reflexivity.
      + intros r. eapply same_but_status_trans; [apply Hf|apply Hfields]. }
  split; [exact Hrefs|]. split; [exact Hfields|].
  unfold leads_of. rewrite Hrefs, <- fmap_app.
  apply Forall2_fmap, Forall_Forall2_diag, Forall_forall. intros r _. apply Hfields.
Qed.

Lemma leads_keep_all_but_status_witness :
  leads_of <$> store_run example_session
                 [Persist (inr "disk full") 1%positive;
                  Persist (inl "/app/leads.csv") 2%positive;
                  UpdateStatus 0 "Report Sent"]
  = Some [<["status" := VStr "Report Sent"]> lead_acme; lead_bolt] ∧
  Forall2 same_but_status [lead_acme; lead_bolt]
          [<["status" := VStr "Report Sent"]> lead_acme; lead_bolt].
Proof.
  assert (store_run example_session
            [Persist (inr "disk full") 1%positive;
             Persist (inl "/app/leads.csv") 2%positive;
             UpdateStatus 0 "Report Sent"]
          = Some (Session (alter (<["status" := VStr "Report Sent"]>) 1%positive
                                 example_fields)
                          (Some [1; 2]%positive))) as Hrun by reflexivity.
  split; [rewrite Hrun; reflexivity|].
  destruct (leads_keep_all_but_status _ _ _ Hrun) as (_ & _ & H). exact H.
Defined.

(** X19. A lead appended by [persist_lead] is the last of the list, at
    the index of the former length, and no object changes.
    [update_lead_status] at that index, or at -1, then sets the status of
    that object and of no other; the leads read as before followed by the
    new one with its status set, provided the object was not in the list
    already, and else every earlier position that holds it reads the new
    status too. *)
Theorem persisted_lead_is_last (csv : string + string) (row : ref)
    (st : session) (new_status : string) (index : Z) :
  let db := lead_refs st in
  let st1 := (persist_lead csv row st).1 in
  index = Z.of_nat (length db) ∨ index = -1 →
  lead_refs st1 = db ++ [row] ∧
  (∀ r, lead_fields st1 r = lead_fields st r) ∧
  ∃ st2,
    update_lead_status index new_status st1 = Some st2 ∧
    lead_refs st2 = db ++ [row] ∧
    (∀ r, lead_fields st2 r = with_status new_status st row r) ∧
    leads_of st2 = with_status new_status st row <$> (db ++ [row]) ∧
    (row ∉ db →
     leads_of st2
     = leads_of st ++ [<["status" := VStr new_status]> (lead_fields st row)]).
Proof.
  cbv zeta. intros Hindex. split; [reflexivity|]. split; [reflexivity|].
  set (db := lead_refs st) in *.
  assert (leads_db (persist_lead csv row st).1 = Some (db ++ [row])) as Hdb
    by reflexivity.
  assert (Z.of_nat (length (db ++ [row])) = Z.of_nat (length db) + 1) as Hlen
    by (rewrite length_app; cbn [length]; lia).
  destruct (update_lead_status_in_range index new_status _ _ Hdb) as (r & Hr & Hup).
  { rewrite Hlen. destruct Hindex; lia. }
  assert (r = row) as ->.
  { rewrite Hlen in Hr.
    replace (Z.to_nat (index `mod` (Z.of_nat (length db) + 1))) with (length db) in Hr.
    - rewrite list_lookup_middle in Hr by done. by injection Hr.
    - destruct Hindex as [-> | ->].
      + rewrite Z.mod_small by lia. lia.
      + replace ((-1) `mod` (Z.of_nat (length db) + 1)) with (Z.of_nat (length db));
          [lia|]. apply Z.mod_unique with (q := -1); lia. }
  eexists. split; [exact Hup|]. split; [reflexivity|].
  assert (∀ r, alter (<["status" := VStr new_status]>) row
                 (lead_fields (persist_lead csv row st).1) r
               = with_status new_status st row r) as Hfields.
  { intros r. apply (alter_with_status new_status st row r). }
  split; [exact Hfields|].
  assert (leads_of (Session (alter (<["status" := VStr new_status]>) row
                               (lead_fields (persist_lead csv row st).1))
                            (Some (db ++ [row])))
          = with_status new_status st row <$> (db ++ [row])) as Hview.
  { unfold leads_of, lead_refs. cbn [leads_db lead_fields default from_option id].
    apply list_fmap_ext. intros _ r _. apply Hfields. }
  split; [exact Hview|]. intros Hnew. rewrite Hview, fmap_app. f_equal.
  - unfold leads_of. fold db. apply list_fmap_ext. intros i r Hi.
    unfold with_status. rewrite decide_False; [done|]. intros ->.
    apply Hnew. by eapply list_elem_of_lookup_2.
  - cbn. unfold with_status. by rewrite decide_True.
Qed.

Lemma persisted_lead_is_last_witness :
  leads_of <$> update_lead_status (-1) "Report Sent"
                 (persist_lead (inl "leads.csv") 2%positive
                    (persist_lead (inl "leads.csv") 1%positive example_session).1).1
  = Some [lead_acme; <["status" := VStr "Report Sent"]> lead_bolt] ∧
  leads_of <$> update_lead_status 1 "Report Sent"
                 (persist_lead (inl "leads.csv") 1%positive
                    (persist_lead (inl "leads.csv") 1%positive example_session).1).1
  = Some [<["status" := VStr "Report Sent"]> lead_acme;
          <["status" := VStr "Report Sent"]> lead_acme].
Proof.
  destruct (persisted_lead_is_last (inl "leads.csv") 2%positive
              (persist_lead (inl "leads.csv") 1%positive example_session).1
              "Report Sent" (-1))
    as (_ & _ & st2 & -> & _ & _ & _ & Hfresh); [by right|].
  destruct (persisted_lead_is_last (inl "leads.csv") 1%positive
              (persist_lead (inl "leads.csv") 1%positive example_session).1
              "Report Sent" 1)
    as (_ & _ & st2' & -> & _ & _ & Hshared & _); [by left|].
  cbn [fmap option_fmap option_map]. split.
  - rewrite Hfresh; [reflexivity|].
    apply (bool_decide_unpack _). vm_compute. exact I.
  - rewrite Hshared. reflexivity.
Defined.

(** ** The stored scores and their reconstruction *)

Lemma stored_fold_Raise e ps : foldl stored_step (Py.Raise e) ps = Py.Raise e.
Proof. induction ps as [|p ps IH]; [done|]. exact IH. Qed.

Lemma stored_fold_lookup ps acc d :
  NoDup (Py.get0 <$> ps) →
  foldl stored_step (Py.Ok acc) ps = Py.Ok d →
  ∀ p, p ∈ ps → ∃ s, Py.round (Py.get1 p) = Py.Ok s ∧ d !! Py.get0 p = Some s.
Proof.
  revert acc. induction ps as [|p0 ps IH]; intros acc Hnd Hf p Hin.
  { by apply elem_of_nil in Hin. }
  cbn [fmap list_fmap] in Hnd. apply NoDup_cons in Hnd as [Hnin Hnd].
  cbn [foldl] in Hf. unfold stored_step at 2 in Hf.
  cbn [mbind Py.result_bind] in Hf.
  destruct (Py.round (Py.get1 p0)) as [s0|e] eqn:E;
    cbn [mbind Py.result_bind mret Py.result_ret] in Hf;
    [|by rewrite stored_fold_Raise in Hf].
  apply elem_of_cons in Hin as [->|Hin]; [|by eapply IH].
  exists s0. split; [exact E|].
  clear IH E. revert acc Hf. induction ps as [|p1 ps IH]; intros acc Hf.
  - cbn in Hf. injection Hf as <-. apply lookup_insert_eq.
  - cbn [fmap list_fmap] in Hnin, Hnd. apply not_elem_of_cons in Hnin as [Hne Hnin].
    apply NoDup_cons in Hnd as [_ Hnd].
    cbn [foldl] in Hf. unfold stored_step at 2 in Hf.
    cbn [mbind Py.result_bind] in Hf.
    destruct (Py.round (Py.get1 p1)) as [s1|e] eqn:E;
      cbn [mbind Py.result_bind mret Py.result_ret] in Hf;
      [|by rewrite stored_fold_Raise in Hf].
    rewrite insert_insert_ne in Hf by done. by eapply IH.
Qed.

Lemma stored_fold_Ok ps acc :
  Forall (λ p, ∃ s, Py.round (Py.get1 p) = Py.Ok s) ps →
  ∃ d, foldl stored_step (Py.Ok acc) ps = Py.Ok d.
Proof.
  intros H. revert acc. induction H as [|p ps [s Hs] _ IH]; intros acc; [by eexists|].
  cbn [foldl]. unfold stored_step at 2. cbn [mbind Py.result_bind]. rewrite Hs.
  cbn [mbind Py.result_bind mret Py.result_ret]. apply IH.
Qed.

Lemma pillar_names_nodup : NoDup (fst <$> PILLARS).
Proof. apply (bool_decide_unpack _). vm_compute. exact I. Qed.

Lemma reconstructed_rounds answers ps overall d :
  compute_scores answers = Py.Ok (ps, overall) →
  stored_pillar_scores ps = Py.Ok d →
  Forall2 rebuilt_from ps (reconstructed_pillar_scores d answers).
Proof.
  intros Hc Hd. destruct (compute_scores_inv _ _ _ Hc) as [Hps _].
  assert (Py.get0 <$> ps = fst <$> PILLARS) as Hnames.
  { clear -Hps. induction Hps as [|pillar p pillars ps' (s & _ & ->) _ IH]; [done|].
    cbn. by rewrite IH. }
  assert (∀ p, p ∈ ps → ∃ s, Py.round (Py.get1 p) = Py.Ok s ∧ d !! Py.get0 p = Some s)
    as Hlook.
  { apply (stored_fold_lookup ps ∅); [|exact Hd].
    rewrite Hnames. apply pillar_names_nodup. }
  assert (reconstructed_pillar_scores d answers
          = (λ pillar, (pillar.1, Py.dict_get d pillar.1 0,
                        Py.dict (zip pillar.2 (pillar_vals answers pillar.2))))
            <$> PILLARS) as ->.
  { unfold reconstructed_pillar_scores, pillar_vals, PILLARS.
    cbn [foldl fmap list_fmap app fst snd zip_with]. reflexivity. }
  apply Forall2_fmap_r, Forall2_same_length_lookup.
  split; [symmetry; exact (Forall2_length _ _ _ Hps)|].
  intros i p pillar Hp Hpillar.
  destruct (Forall2_lookup_lr _ _ _ _ _ _ Hps Hpillar Hp) as (s' & _ & ->).
  destruct (Hlook _ (list_elem_of_lookup_2 _ _ _ Hp)) as (s & Hs & Hds).
  unfold rebuilt_from, Py.get0, Py.get1, Py.get2, Py.dict_get in *. cbn [fst snd] in *.
  cbn [compose fst snd]. rewrite Hds. by cbn.
Qed.

(** X20. What the admin panel rebuilds from a stored submission, the
    two stored dictionaries read back as they were written. Whenever
    [compute_scores] returns and the scores can be stored, the rebuilt
    list has for every tuple of [compute_scores], in the same order, the
    same name and the same detail, and as its score the original score
    rounded. With every rating given in [0, 5] both steps succeed and
    rounding loses nothing: the rebuilt tuples, their integer scores
    taken as floats, are the tuples [compute_scores] returned. *)
Theorem reconstruction_round_trip answers :
  (∀ ps overall d,
     compute_scores answers = Py.Ok (ps, overall) →
     stored_pillar_scores ps = Py.Ok d →
     Forall2 rebuilt_from ps (reconstructed_pillar_scores d answers)) ∧
  (rated_within 0 5 answers →
   ∃ ps overall d,
     compute_scores answers = Py.Ok (ps, overall) ∧
     stored_pillar_scores ps = Py.Ok d ∧
     as_pillar_tuple <$> reconstructed_pillar_scores d answers = ps).
Proof.
  split; [intros ps overall d; apply reconstructed_rounds|].
  intros Hr. pose proof (compute_scores_rated answers Hr) as Hc.
  pose proof (rated_vals_bounds answers Hr) as Hv.
  assert (Forall (λ p, ∃ n, Py.get1 p = Py.float_of_Z n ∧ Py.round (Py.get1 p) = Py.Ok n)
                 (rated_tuple answers <$> PILLARS)) as Hround.
  { apply Forall_fmap. eapply Forall_impl; [exact Hv|]. intros pillar Hp.
    cbn [fst snd] in *. eexists. split; [reflexivity|].
    unfold rated_tuple, Py.get1. cbn [fst snd]. apply round_of_Z. lia. }
  destruct (stored_fold_Ok (rated_tuple answers <$> PILLARS) ∅) as [d Hd].
  { eapply Forall_impl; [exact Hround|]. intros p (n & _ & Hn). by exists n. }
  exists (rated_tuple answers <$> PILLARS), (Py.float_of_Z (2 * rating_total answers)), d.
  split; [exact Hc|]. split; [exact Hd|].
  pose proof (reconstructed_rounds _ _ _ _ Hc Hd) as Hrec.
  revert Hrec Hround. generalize (reconstructed_pillar_scores d answers).
  generalize (rated_tuple answers <$> PILLARS). clear.
  intros ps rs Hrec. induction Hrec as [|p r ps rs (H0 & H1 & H2) _ IH]; intros Hround;
    [done|].
  apply Forall_cons in Hround as [(n & Hn & Hrn) Hround].
  cbn [fmap list_fmap]. rewrite (IH Hround). f_equal.
  rewrite Hrn in H1. injection H1 as ->.
  destruct p as [[pname s] detail], r as [[rname rs'] rdetail].
  unfold as_pillar_tuple, Py.get0, Py.get1, Py.get2 in *. cbn [fst snd] in *.
  by subst.
Qed.

Lemma reconstruction_round_trip_witness :
  ∃ ps overall d,
    compute_scores example_answers = Py.Ok (ps, overall) ∧
    stored_pillar_scores ps = Py.Ok d ∧
    as_pillar_tuple <$> reconstructed_pillar_scores d example_answers = ps ∧
    Forall2 rebuilt_from ps (reconstructed_pillar_scores d example_answers).
Proof.
  destruct (reconstruction_round_trip example_answers) as [Hany Hscale].
  destruct Hscale as (ps & overall & d & Hc & Hd & Hrec).
  { apply (bool_decide_unpack _). vm_compute. exact I. }
  exists ps, overall, d.
  split; [exact Hc|]. split; [exact Hd|]. split; [exact Hrec|].
  exact (Hany ps overall d Hc Hd).
Defined.

(** X21. The rounded overall score that is stored keeps the tier: when
    [round] takes the overall score to an integer from 0 to 100, that
    integer read back as a float has the tier of the original score, and
    rounds to itself. *)
Theorem stored_overall_keeps_tier (overall : Py.float) (score_overall : Z) :
  Py.round overall = Py.Ok score_overall → 0 ≤ score_overall ≤ 100 →
  (x ← Py.int_to_float score_overall; tier_for x) = tier_for overall ∧
  (x ← Py.int_to_float score_overall; Py.round x) = Py.Ok score_overall.
Proof.
  intros Hround Hrange.
  assert (Py.int_to_float score_overall = Py.Ok (Py.float_of_Z score_overall)) as ->.
  { unfold Py.int_to_float.
    pose proof (round_of_Z score_overall Hrange) as Hr.
    destruct (Py.float_of_Z score_overall) as [| [|] | |]; try discriminate Hr;
      reflexivity. }
  cbn [mbind Py.result_bind]. unfold tier_for.
  by rewrite round_of_Z, Hround.
Qed.

Lemma stored_overall_keeps_tier_witness :
  (x ← Py.int_to_float 80; tier_for x) = tier_for (Py.decimal 795 1) ∧
  (x ← Py.int_to_float 80; Py.round x) = Py.Ok 80.
Proof.
  apply (stored_overall_keeps_tier (Py.decimal 795 1) 80).
  - vm_compute. reflexivity.
  - lia.
Defined.
